(** * Community voting service (src/app.py): proposals, votes, tallies

    A shallow embedding of the FastAPI handlers of [src/app.py] over a
    relational store with two tables, followed by the properties of the
    proposal life cycle, the vote ledger and the tally.

    Modelling decisions, all read off the source:
    - a table is the list of its rows in rowid order; [SELECT .. WHERE] is
      [filter], [fetchone] is [head], [UPDATE .. WHERE] maps over the rows,
      [DELETE .. WHERE] filters them out and [INSERT] appends a row whose id
      is drawn from the AUTOINCREMENT counter of the table;
    - every write of the source is followed by [conn.commit()] before any
      exception can be raised, so a write is modelled as committed at once;
    - a [datetime] is the number of microseconds since [datetime.min]; the
      text stored by [isoformat] and read back by [fromisoformat] denotes the
      same instant, so the columns hold the instant itself;
    - [datetime.utcnow()] is a read of an external clock: the [n]-th read of
      the process returns [clock n], and the world counts the reads made;
    - a handler is a computation in a state-and-exception monad over the
      world; an exception does not undo what was committed before it;
    - integers are Python's unbounded integers; an id that a request
      gives and that does not fit in 64 bits cannot be bound to a statement
      and makes it raise. *)

From stdpp Require Import base decidable option list strings gmap.
From Stdlib Require Import ZArith Lia.

Local Open Scope string_scope.
Local Open Scope Z_scope.

(** ** Data model *)

(** [class ProposalStatus(str, enum.Enum)]. *)
Inductive ProposalStatus : Set := active | closed | expired.

Global Instance ProposalStatus_eq_dec : EqDecision ProposalStatus.
Proof. solve_decision. Defined.

(** A row of table [proposals]. *)
Record proposal_row : Set := ProposalRow {
  p_id : Z;
  p_title : string;
  p_description : string;
  p_created_at : Z;
  p_deadline : Z;
  p_status : ProposalStatus
}.

(** A row of table [votes]; column [vote] is TEXT. *)
Record vote_row : Set := VoteRow {
  v_id : Z;
  v_proposal_id : Z;
  v_voter_name : string;
  v_vote : string;
  v_voted_at : Z
}.

(** The database file: both tables and their [sqlite_sequence] counters. *)
Record store : Set := Store {
  proposals : list proposal_row;
  proposals_seq : Z;
  votes : list vote_row;
  votes_seq : Z
}.

(** The store together with the number of clock reads made so far. *)
Record world : Set := World {
  db : store;
  ticks : nat
}.

(** [init_db] on a fresh file. *)
Definition empty_store : store := Store [] 0 [] 0.

(** ** Schemas *)

(** The [days_open] member of a JSON request body. *)
Inductive json_int : Set := Absent | Null | Int (n : Z).

(** The body of [POST /proposals/] before validation. *)
Record ProposalCreateBody : Set := {
  body_title : string;
  body_description : string;
  body_days_open : json_int
}.

(** [class ProposalCreate(BaseModel)]; [days_open] is [Optional[int]]. *)
Record ProposalCreate : Set := {
  title : string;
  description : string;
  days_open : option Z
}.

(** [class ProposalOut(BaseModel)]. *)
Record ProposalOut : Set := {
  out_id : Z;
  out_title : string;
  out_description : string;
  out_created_at : Z;
  out_deadline : Z;
  out_status : ProposalStatus;
  yes_count : Z;
  no_count : Z;
  abstain_count : Z
}.

(** [class VoteCreate(BaseModel)]. *)
Record VoteCreate : Set := {
  voter_name : string;
  vote : string
}.

(** [class VoteOut(BaseModel)]. *)
Record VoteOut : Set := {
  vout_id : Z;
  vout_proposal_id : Z;
  vout_voter_name : string;
  vout_vote : string;
  vout_voted_at : Z
}.

(** ** Exceptions and the handler monad *)

(** What a handler can raise: the [HTTPException]s of the source, the
    request validation error of the framework (422), and the unhandled
    Python exceptions (500). *)
Inductive exn : Set :=
  | HTTPException (status_code : Z) (detail : string)
  | RequestValidationError
  | TypeError
  | OverflowError
  | IntegrityError.

Inductive outcome (A : Type) : Type :=
  | Return (a : A)
  | Raise (e : exn).
Arguments Return {A} a.
Arguments Raise {A} e.

Definition M (A : Type) : Type := world → outcome A * world.

Global Instance M_ret : MRet M := λ A a w, (Return a, w).

Global Instance M_bind : MBind M := λ A B f m w,
  match m w with
  | (Return a, w') => f a w'
  | (Raise e, w') => (Raise e, w')
  end.

Definition raise {A : Type} (e : exn) : M A := λ w, (Raise e, w).

Definition lift {A : Type} (o : outcome A) : M A := λ w, (o, w).

(** A read-only statement. *)
Definition query {A : Type} (q : store → A) : M A :=
  λ w, (Return (q (db w)), w).

(** A write followed by [conn.commit()]. *)
Definition execute (u : store → store) : M unit :=
  λ w, (Return tt, World (u (db w)) (ticks w)).

(** ** The error kinds of the specification, as the source raises them *)

Definition NotFound_proposal : exn := HTTPException 404 "Proposal not found".
Definition NotFound_vote : exn := HTTPException 404 "Vote not found".
Definition InvalidState_vote : exn :=
  HTTPException 400 "Proposal is not active; voting is not allowed.".
Definition InvalidState_revoke : exn :=
  HTTPException 400 "Cannot revoke vote: proposal not active.".
Definition Conflict : exn :=
  HTTPException 400 "Voter has already voted. Revoke first to change vote.".
Definition Forbidden : exn := HTTPException 403 "Admin token required".

(** ** Python's [datetime] arithmetic *)

Definition US_PER_DAY : Z := 86400000000.

(** [timedelta.max.days]. *)
Definition MAX_DELTA_DAYS : Z := 999999999.

(** [datetime.max], 9999-12-31T23:59:59.999999. *)
Definition DATETIME_MAX : Z := 3652059 * US_PER_DAY - 1.

(** [timedelta(days=d)]: [None] is not a number, and the magnitude of the
    days is bounded. *)
Definition timedelta (d : option Z) : outcome Z :=
  match d with
  | None => Raise TypeError
  | Some n =>
      if decide (- MAX_DELTA_DAYS ≤ n ≤ MAX_DELTA_DAYS)
      then Return (n * US_PER_DAY)
      else Raise OverflowError
  end.

(** [t + delta] on a [datetime]: the result has to be a date of the
    years 1 to 9999. *)
Definition datetime_add (t delta : Z) : outcome Z :=
  if decide (0 ≤ t + delta ≤ DATETIME_MAX)
  then Return (t + delta)
  else Raise OverflowError.

(** ** SQL statements *)

Definition fetchone {A : Type} (rows : list A) : option A := head rows.

(** The integers the [sqlite3] module can bind to a statement: those of 64
    bits with a sign. *)
Definition int64 (z : Z) : Prop := - 2 ^ 63 ≤ z < 2 ^ 63.

(** [cur.execute("SELECT .. WHERE id=?", (id,))] followed by
    [cur.fetchone()], where [rows] is what the statement selects. Binding
    an id that is no 64-bit integer raises [OverflowError]. A rowid is a
    64-bit integer, so such an id is the id of no row: the statement raises
    exactly when the id does not fit and no row has it. *)
Definition fetch_by_id {A : Type} (id : Z) (rows : store → list A)
  : M (option A) := λ w,
  match fetchone (rows (db w)) with
  | Some r => (Return (Some r), w)
  | None =>
      if decide (int64 id) then (Return None, w) else (Raise OverflowError, w)
  end.

(** The rowid an AUTOINCREMENT table gives to a new row: one more than the
    largest rowid that is or ever was in the table. *)
Definition next_rowid (seq : Z) (ids : list Z) : Z := 1 + foldr Z.max seq ids.

(** [SELECT * FROM proposals WHERE id=?] *)
Definition select_proposal (proposal_id : Z) (s : store) : list proposal_row :=
  filter (λ r, p_id r = proposal_id) (proposals s).

(** [SELECT id FROM proposals] *)
Definition select_proposal_ids (s : store) : list Z := p_id <$> proposals s.

Definition set_status (st : ProposalStatus) (r : proposal_row) : proposal_row :=
  ProposalRow (p_id r) (p_title r) (p_description r)
              (p_created_at r) (p_deadline r) st.

(** [UPDATE proposals SET status=? WHERE id=?] *)
Definition update_status (st : ProposalStatus) (proposal_id : Z) (s : store)
  : store :=
  Store ((λ r, if decide (p_id r = proposal_id) then set_status st r else r)
           <$> proposals s)
        (proposals_seq s) (votes s) (votes_seq s).

(** The table [proposals] with one more row at its end, whose id becomes
    the counter of the table. *)
Definition add_proposal (r : proposal_row) (s : store) : store :=
  Store (proposals s ++ [r]) (p_id r) (votes s) (votes_seq s).

(** [INSERT INTO proposals (title, description, created_at, deadline,
    status) VALUES (?,?,?,?,?)]; returns [cur.lastrowid]. *)
Definition insert_proposal (ttl descr : string) (created_at deadline : Z)
    (st : ProposalStatus) : M Z := λ w,
  let s := db w in
  let pid := next_rowid (proposals_seq s) (p_id <$> proposals s) in
  (Return pid,
   World (add_proposal (ProposalRow pid ttl descr created_at deadline st) s)
         (ticks w)).

(** [SELECT * FROM votes WHERE id=?] *)
Definition select_vote (vote_id : Z) (s : store) : list vote_row :=
  filter (λ v, v_id v = vote_id) (votes s).

(** [SELECT id FROM votes WHERE proposal_id=? AND voter_name=?] *)
Definition select_vote_of (proposal_id : Z) (name : string) (s : store)
  : list Z :=
  v_id <$> filter (λ v, v_proposal_id v = proposal_id ∧ v_voter_name v = name)
                  (votes s).

(** [SELECT * FROM votes] *)
Definition select_votes (s : store) : list vote_row := votes s.

(** [DELETE FROM votes WHERE id=?] *)
Definition delete_vote (vote_id : Z) (s : store) : store :=
  Store (proposals s) (proposals_seq s)
        (filter (λ v, v_id v ≠ vote_id) (votes s)) (votes_seq s).

(** The values column [vote] admits: [CHECK(vote IN ('yes','no','abstain'))]. *)
Definition choices : list string := ["yes"; "no"; "abstain"].

(** The table [votes] with one more row at its end. *)
Definition add_vote (v : vote_row) (s : store) : store :=
  Store (proposals s) (proposals_seq s) (votes s ++ [v]) (v_id v).

(** [INSERT INTO votes (proposal_id, voter_name, vote, voted_at) VALUES
    (?,?,?,?)]; the table's [CHECK] and [UNIQUE(proposal_id, voter_name)]
    constraints reject the row with an integrity error. Returns
    [cur.lastrowid]. *)
Definition insert_vote (proposal_id : Z) (name choice : string) (voted_at : Z)
  : M Z := λ w,
  let s := db w in
  if decide (choice ∈ choices) then
    if decide (select_vote_of proposal_id name s = []) then
      let vid := next_rowid (votes_seq s) (v_id <$> votes s) in
      (Return vid,
       World (add_vote (VoteRow vid proposal_id name choice voted_at) s)
             (ticks w))
    else (Raise IntegrityError, w)
  else (Raise IntegrityError, w).

(** [SELECT vote, COUNT( * ) as c FROM votes WHERE proposal_id=? GROUP BY
    vote]: one row per value of [vote] that occurs among the proposal's
    votes. The values are pairwise different, so the order of the groups
    does not matter to the reader of the result. *)
Definition select_vote_counts (proposal_id : Z) (s : store)
  : list (string * Z) :=
  let rows := filter (λ v, v_proposal_id v = proposal_id) (votes s) in
  (λ c, (c, Z.of_nat (length (filter (λ v, v_vote v = c) rows))))
    <$> remove_dups (v_vote <$> rows).

(** ** Sample data for the closed examples *)

(** A clock that starts on 2025-01-01T00:00:00 and is one day further at
    every read. *)
Definition sample_clock (n : nat) : Z := (739251 + Z.of_nat n) * US_PER_DAY.

(** Proposal 1, opened at the first instant of [sample_clock] for two
    days, with the given status. *)
Definition sample_proposal (st : ProposalStatus) : proposal_row :=
  ProposalRow 1 "Park" "Build a park" (739251 * US_PER_DAY)
              (739253 * US_PER_DAY) st.

Definition sample_store (st : ProposalStatus) : store :=
  Store [sample_proposal st] 1 [] 0.

(** Proposal 1 as [POST /proposals/] stores it in the empty store when it
    is opened for 0 days at the first instant of [sample_clock]. *)
Definition sample_zero_days : proposal_row :=
  ProposalRow 1 "Park" "Build a park" (739251 * US_PER_DAY)
              (739251 * US_PER_DAY) expired.

(** Alice has voted yes on proposal 1. *)
Definition sample_ballots : store :=
  Store [sample_proposal active] 1
        [VoteRow 1 1 "Alice" "yes" (739251 * US_PER_DAY)] 1.

(** ** Helpers of the source *)

(** [tally_votes(conn, proposal_id)]: the dictionary starts with the three
    choices at 0 and is overwritten by the groups the query returns. *)
Definition tally_votes (proposal_id : Z) (s : store) : Z * Z * Z :=
  let counts : gmap string Z :=
    foldl (λ (counts : gmap string Z) (r : string * Z), <[r.1 := r.2]> counts)
          (<["yes" := 0]> (<["no" := 0]> (<["abstain" := 0]> ∅)))
          (select_vote_counts proposal_id s) in
  (counts !!! "yes", counts !!! "no", counts !!! "abstain").

(** Following the specification's words for the tally: the number of votes
    currently stored for the proposal with the given choice. *)
Definition count_votes (proposal_id : Z) (choice : string) (s : store) : Z :=
  Z.of_nat (length (filter
    (λ v, v_proposal_id v = proposal_id ∧ v_vote v = choice) (votes s))).

(** The [ProposalOut(...)] every proposal handler builds from a row and a
    tally. *)
Definition proposal_out (row : proposal_row) (t : Z * Z * Z) : ProposalOut :=
  {| out_id := p_id row;
     out_title := p_title row;
     out_description := p_description row;
     out_created_at := p_created_at row;
     out_deadline := p_deadline row;
     out_status := p_status row;
     yes_count := t.1.1;
     no_count := t.1.2;
     abstain_count := t.2 |}.

Definition vote_out (v : vote_row) : VoteOut :=
  {| vout_id := v_id v;
     vout_proposal_id := v_proposal_id v;
     vout_voter_name := v_voter_name v;
     vout_vote := v_vote v;
     vout_voted_at := v_voted_at v |}.

(** ** Request validation (pydantic) *)

(** [ProposalCreate]: [constr(min_length=1)] on both texts; [days_open]
    takes its default 2 when the member is absent and is [None] when the
    body gives [null]. No constraint bears on the number itself. *)
Definition validate_ProposalCreate (b : ProposalCreateBody)
  : outcome ProposalCreate :=
  if decide (1 ≤ String.length (body_title b))%nat then
    if decide (1 ≤ String.length (body_description b))%nat then
      Return {| title := body_title b;
                description := body_description b;
                days_open := match body_days_open b with
                             | Absent => Some 2
                             | Null => None
                             | Int n => Some n
                             end |}
    else Raise RequestValidationError
  else Raise RequestValidationError.

Definition newline : string := String (Ascii.ascii_of_nat 10) EmptyString.

(** [VoteCreate]: [constr(min_length=1)] on the name and
    [constr(regex="^(yes|no|abstain)$")] on the vote, which Python's
    [re.match] also accepts when one line feed follows the word. *)
Definition validate_VoteCreate (payload : VoteCreate) : outcome VoteCreate :=
  if decide (1 ≤ String.length (voter_name payload))%nat then
    if decide (vote payload ∈ (choices ++ ((λ c, c +:+ newline) <$> choices))%list)
    then Return payload
    else Raise RequestValidationError
  else Raise RequestValidationError.

(** ** Handlers *)

Definition ADMIN_TOKEN : string := "secret-admin-token".

Section Handlers.

(** The readings of [datetime.utcnow()], in the order they are made. *)
Variable clock : nat → Z.

Definition utcnow : M Z :=
  λ w, (Return (clock (ticks w)), World (db w) (S (ticks w))).

(** [get_proposal_or_404(conn, proposal_id)]. The clock is read only when
    the stored status is active ([and] short-circuits). A row that had
    vanished at the second [SELECT] would make every caller fail on its
    first subscript of [None]. *)
Definition get_proposal_or_404 (proposal_id : Z) : M proposal_row :=
  row ← fetch_by_id proposal_id (select_proposal proposal_id);
  match row with
  | None => raise NotFound_proposal
  | Some row =>
      if decide (p_status row = active) then
        now ← utcnow;
        if decide (now > p_deadline row) then
          _ ← execute (update_status expired proposal_id);
          row' ← fetch_by_id proposal_id (select_proposal proposal_id);
          match row' with
          | Some row' => mret row'
          | None => raise TypeError
          end
        else mret row
      else mret row
  end.

(** [n] resolutions of the same proposal in a row, with their results. *)
Fixpoint resolve_times (n : nat) (proposal_id : Z) : M (list proposal_row) :=
  match n with
  | O => mret []
  | S n =>
      row ← get_proposal_or_404 proposal_id;
      rows ← resolve_times n proposal_id;
      mret (row :: rows)
  end.

(** The effective status of a proposal: the status its resolution returns,
    if the proposal exists. *)
Definition effective_status (proposal_id : Z) (w : world)
  : option ProposalStatus :=
  match (get_proposal_or_404 proposal_id w).1 with
  | Return row => Some (p_status row)
  | Raise _ => None
  end.

(** [POST /proposals/] *)
Definition create_proposal (payload : ProposalCreate) : M ProposalOut :=
  created_at ← utcnow;
  delta ← lift (timedelta (days_open payload));
  deadline ← lift (datetime_add created_at delta);
  pid ← insert_proposal (title payload) (description payload)
                        created_at deadline active;
  row ← get_proposal_or_404 pid;
  t ← query (tally_votes pid);
  mret (proposal_out row t).

(** The body of the loop of [get_proposals]. *)
Definition get_proposals_item (pid : Z) : M ProposalOut :=
  row ← get_proposal_or_404 pid;
  t ← query (tally_votes pid);
  mret (proposal_out row t).

Fixpoint get_proposals_loop (ids : list Z) : M (list ProposalOut) :=
  match ids with
  | [] => mret []
  | pid :: ids =>
      out ← get_proposals_item pid;
      results ← get_proposals_loop ids;
      mret (out :: results)
  end.

(** [GET /proposals/] *)
Definition get_proposals : M (list ProposalOut) :=
  ids ← query select_proposal_ids;
  get_proposals_loop ids.

(** [GET /proposals/{proposal_id}] *)
Definition get_proposal (proposal_id : Z) : M ProposalOut :=
  row ← get_proposal_or_404 proposal_id;
  t ← query (tally_votes proposal_id);
  mret (proposal_out row t).

(** [POST /proposals/{proposal_id}/vote] *)
Definition submit_vote (proposal_id : Z) (payload : VoteCreate) : M VoteOut :=
  row ← get_proposal_or_404 proposal_id;
  if decide (p_status row ≠ active) then raise InvalidState_vote
  else
    existing ← query (λ s, fetchone
                 (select_vote_of proposal_id (voter_name payload) s));
    match existing with
    | Some _ => raise Conflict
    | None =>
        voted_at ← utcnow;
        vid ← insert_vote proposal_id (voter_name payload) (vote payload)
                          voted_at;
        v ← query (λ s, fetchone (select_vote vid s));
        match v with
        | Some v => mret (vote_out v)
        | None => raise TypeError
        end
    end.

(** [DELETE /votes/{vote_id}] *)
Definition revoke_vote (vote_id : Z) : M unit :=
  v ← fetch_by_id vote_id (select_vote vote_id);
  match v with
  | None => raise NotFound_vote
  | Some v =>
      p ← get_proposal_or_404 (v_proposal_id v);
      if decide (p_status p ≠ active) then raise InvalidState_revoke
      else execute (delete_vote vote_id)
  end.

(** [PATCH /proposals/{proposal_id}/close]; the header is [None] when the
    request does not carry it. *)
Definition close_proposal (proposal_id : Z) (x_admin_token : option string)
  : M ProposalOut :=
  if decide (x_admin_token ≠ Some ADMIN_TOKEN) then raise Forbidden
  else
    row ← fetch_by_id proposal_id (select_proposal proposal_id);
    match row with
    | None => raise NotFound_proposal
    | Some _ =>
        _ ← execute (update_status closed proposal_id);
        row ← get_proposal_or_404 proposal_id;
        t ← query (tally_votes proposal_id);
        mret (proposal_out row t)
    end.

(** [GET /votes/] *)
Definition list_votes : M (list VoteOut) :=
  rows ← query select_votes;
  mret (vote_out <$> rows).

(** ** Requests and traces *)

Inductive request : Set :=
  | POST_proposals (body : ProposalCreateBody)
  | GET_proposals
  | GET_proposal (proposal_id : Z)
  | POST_vote (proposal_id : Z) (payload : VoteCreate)
  | DELETE_vote (vote_id : Z)
  | PATCH_close (proposal_id : Z) (x_admin_token : option string)
  | GET_votes
  | GET_health.

Inductive response : Set :=
  | Proposal_response (p : ProposalOut)
  | Proposals_response (ps : list ProposalOut)
  | Vote_response (v : VoteOut)
  | Votes_response (vs : list VoteOut)
  | No_content
  | Health_ok.

(** The framework validates the body, then calls the handler. *)
Definition handle (r : request) : M response :=
  match r with
  | POST_proposals body =>
      payload ← lift (validate_ProposalCreate body);
      out ← create_proposal payload;
      mret (Proposal_response out)
  | GET_proposals =>
      outs ← get_proposals; mret (Proposals_response outs)
  | GET_proposal pid =>
      out ← get_proposal pid; mret (Proposal_response out)
  | POST_vote pid payload =>
      payload ← lift (validate_VoteCreate payload);
      out ← submit_vote pid payload;
      mret (Vote_response out)
  | DELETE_vote vid =>
      _ ← revoke_vote vid; mret No_content
  | PATCH_close pid token =>
      out ← close_proposal pid token; mret (Proposal_response out)
  | GET_votes =>
      outs ← list_votes; mret (Votes_response outs)
  | GET_health => mret Health_ok
  end.

(** The world after a sequence of requests served one after the other. *)
Definition run (rs : list request) (w : world) : world :=
  foldl (λ w r, (handle r w).2) w rs.

End Handlers.

(** ** Properties of the SQL statements *)

Section Statements.

Implicit Types (s : store) (r : proposal_row) (v : vote_row).

Lemma set_status_id st r : p_id (set_status st r) = p_id r.
Proof. reflexivity. Qed.

Lemma set_status_same r : set_status (p_status r) r = r.
Proof. by destruct r. Qed.

Lemma fetchone_Some_id pid s r :
  fetchone (select_proposal pid s) = Some r → p_id r = pid.
Proof.
  unfold fetchone, select_proposal. intros Hh.
  apply head_Some_elem_of, list_elem_of_filter in Hh. tauto.
Qed.

(** After [UPDATE .. SET status=st WHERE id=pid] the row of [pid] reads
    back with the new status and its other columns as they were. *)
Lemma select_update_same st pid s :
  fetchone (select_proposal pid (update_status st pid s))
  = set_status st <$> fetchone (select_proposal pid s).
Proof.
  unfold fetchone, select_proposal, update_status; simpl.
  induction (proposals s) as [|r l IH]; [done|].
  rewrite fmap_cons, !filter_cons.
  destruct (decide (p_id r = pid)) as [Heq|Hne]; simpl.
  - by rewrite decide_True.
  - by rewrite decide_False.
Qed.

(** The rows of every other proposal are out of reach of the update. *)
Lemma select_update_other st pid pid' s :
  pid' ≠ pid →
  select_proposal pid' (update_status st pid s) = select_proposal pid' s.
Proof.
  intros Hne. unfold select_proposal, update_status; simpl.
  induction (proposals s) as [|r l IH]; [done|].
  rewrite fmap_cons, !filter_cons.
  destruct (decide (p_id r = pid)) as [Heq|Hr]; simpl.
  - rewrite !decide_False by congruence. done.
  - rewrite IH. done.
Qed.

Lemma foldr_max_ge (seq : Z) (ids : list Z) : seq ≤ foldr Z.max seq ids.
Proof. induction ids; simpl; lia. Qed.

Lemma foldr_max_elem (seq : Z) (ids : list Z) (i : Z) :
  i ∈ ids → i ≤ foldr Z.max seq ids.
Proof.
  induction ids as [|j ids IH]; [by intros ?%elem_of_nil|].
  rewrite elem_of_cons; simpl. intros [->|Hin]; [lia|].
  specialize (IH Hin). lia.
Qed.

(** An AUTOINCREMENT rowid is above every rowid of the table. *)
Lemma next_rowid_fresh (seq : Z) (ids : list Z) (i : Z) :
  i ∈ ids → i < next_rowid seq ids.
Proof. intros Hin%(foldr_max_elem seq). unfold next_rowid. lia. Qed.

Lemma next_rowid_not_elem (seq : Z) (ids : list Z) :
  next_rowid seq ids ∉ ids.
Proof. intros Hin%(next_rowid_fresh seq). lia. Qed.

Lemma filter_fresh_nil {A : Type} (f : A → Z) (l : list A) (i : Z) :
  i ∉ f <$> l → filter (λ x, f x = i) l = [].
Proof.
  intros Hni. induction l as [|x l IH]; [done|].
  rewrite fmap_cons, not_elem_of_cons in Hni. destruct Hni as [Hx Hl].
  rewrite filter_cons, decide_False by congruence. auto.
Qed.

Lemma head_app_nonempty {A : Type} (l k : list A) (x : A) :
  head l = Some x → head (l ++ k) = Some x.
Proof. by destruct l. Qed.

Lemma fetch_by_id_Some {A : Type} (id : Z) (rows : store → list A) w (x : A) :
  fetchone (rows (db w)) = Some x →
  fetch_by_id id rows w = (Return (Some x), w).
Proof. intros Hr. unfold fetch_by_id. by rewrite Hr. Qed.

Lemma fetch_by_id_None {A : Type} (id : Z) (rows : store → list A) w :
  fetchone (rows (db w)) = None →
  int64 id →
  fetch_by_id id rows w = (Return None, w).
Proof. intros Hr Hid. unfold fetch_by_id. by rewrite Hr, decide_True. Qed.

Lemma fetch_by_id_unbound {A : Type} (id : Z) (rows : store → list A) w :
  fetchone (rows (db w)) = None →
  ¬ int64 id →
  fetch_by_id id rows w = (Raise OverflowError, w).
Proof. intros Hr Hid. unfold fetch_by_id. by rewrite Hr, decide_False. Qed.

End Statements.

(** ** Lazy expiry: [get_proposal_or_404] *)

Ltac unfold_monad :=
  unfold mbind, M_bind, mret, M_ret, query, execute, raise, lift, utcnow;
  simpl.

Section Resolution.

Variable clock : nat → Z.
Implicit Types (w : world) (row : proposal_row).

Lemma resolve_missing pid w :
  fetchone (select_proposal pid (db w)) = None →
  int64 pid →
  get_proposal_or_404 clock pid w = (Raise NotFound_proposal, w).
Proof.
  intros Hrow Hid. unfold get_proposal_or_404, mbind, M_bind.
  by rewrite fetch_by_id_None.
Qed.

(** An id that does not fit in 64 bits makes the first statement raise. *)
Lemma resolve_unbound pid w :
  fetchone (select_proposal pid (db w)) = None →
  ¬ int64 pid →
  get_proposal_or_404 clock pid w = (Raise OverflowError, w).
Proof.
  intros Hrow Hid. unfold get_proposal_or_404, mbind, M_bind.
  by rewrite fetch_by_id_unbound.
Qed.

(** A closed or expired row is returned as it is, without a clock read. *)
Lemma resolve_settled pid row w :
  fetchone (select_proposal pid (db w)) = Some row →
  p_status row ≠ active →
  get_proposal_or_404 clock pid w = (Return row, w).
Proof.
  intros Hrow Hst. unfold get_proposal_or_404, mbind, M_bind.
  rewrite (fetch_by_id_Some _ _ _ _ Hrow). by rewrite decide_False.
Qed.

Lemma resolve_in_time pid row w :
  fetchone (select_proposal pid (db w)) = Some row →
  p_status row = active →
  clock (ticks w) ≤ p_deadline row →
  get_proposal_or_404 clock pid w
  = (Return row, World (db w) (S (ticks w))).
Proof.
  intros Hrow Hst Hnow. unfold get_proposal_or_404, mbind, M_bind at 1.
  rewrite (fetch_by_id_Some _ _ _ _ Hrow), decide_True by done.
  unfold_monad. by rewrite decide_False by lia.
Qed.

Lemma resolve_expire pid row w :
  fetchone (select_proposal pid (db w)) = Some row →
  p_status row = active →
  clock (ticks w) > p_deadline row →
  get_proposal_or_404 clock pid w
  = (Return (set_status expired row),
     World (update_status expired pid (db w)) (S (ticks w))).
Proof.
  intros Hrow Hst Hnow. unfold get_proposal_or_404, mbind, M_bind at 1.
  rewrite (fetch_by_id_Some _ _ _ _ Hrow), decide_True by done.
  unfold mbind, M_bind at 1. unfold utcnow at 1.
  rewrite decide_True by lia.
  unfold mbind, M_bind at 1. unfold execute at 1. unfold M_bind.
  rewrite (fetch_by_id_Some _ _ _ (set_status expired row)); [done|].
  cbn [db]. by rewrite select_update_same, Hrow.
Qed.

(** The five ways a resolution can end. *)
Inductive resolved pid w : outcome proposal_row * world → Prop :=
  | Resolved_missing :
      fetchone (select_proposal pid (db w)) = None →
      int64 pid →
      resolved pid w (Raise NotFound_proposal, w)
  | Resolved_unbound :
      fetchone (select_proposal pid (db w)) = None →
      ¬ int64 pid →
      resolved pid w (Raise OverflowError, w)
  | Resolved_settled row :
      fetchone (select_proposal pid (db w)) = Some row →
      p_status row ≠ active →
      resolved pid w (Return row, w)
  | Resolved_in_time row :
      fetchone (select_proposal pid (db w)) = Some row →
      p_status row = active →
      clock (ticks w) ≤ p_deadline row →
      resolved pid w (Return row, World (db w) (S (ticks w)))
  | Resolved_expire row :
      fetchone (select_proposal pid (db w)) = Some row →
      p_status row = active →
      clock (ticks w) > p_deadline row →
      resolved pid w
        (Return (set_status expired row),
         World (update_status expired pid (db w)) (S (ticks w))).

Lemma get_proposal_or_404_resolved pid w :
  resolved pid w (get_proposal_or_404 clock pid w).
Proof.
  destruct (fetchone (select_proposal pid (db w))) as [row|] eqn:Hrow.
  - destruct (decide (p_status row = active)) as [Hst|Hst].
    + destruct (decide (clock (ticks w) > p_deadline row)) as [Hnow|Hnow].
      * rewrite (resolve_expire _ _ _ Hrow Hst Hnow). by constructor.
      * rewrite (resolve_in_time _ _ _ Hrow Hst) by lia.
        constructor; [done..|lia].
    + rewrite (resolve_settled _ _ _ Hrow Hst). by constructor.
  - destruct (decide (int64 pid)) as [Hid|Hid].
    + rewrite (resolve_missing _ _ Hrow Hid). by constructor.
    + rewrite (resolve_unbound _ _ Hrow Hid). by constructor.
Qed.

Lemma resolve_times_settled n pid row w :
  fetchone (select_proposal pid (db w)) = Some row →
  p_status row ≠ active →
  resolve_times clock n pid w = (Return (replicate n row), w).
Proof.
  intros Hrow Hst. induction n as [|n IH]; [done|].
  simpl. unfold mbind, M_bind at 1.
  rewrite (resolve_settled _ _ _ Hrow Hst).
  unfold M_bind. by rewrite IH.
Qed.

(** C3. Resolving an existing proposal loads the stored row. When the
    stored status is active and the instant read is past the deadline,
    the status expired is written and the updated row is returned;
    otherwise the stored row is returned and nothing is written. After
    the transition, any number of further resolutions, at whatever
    instants, return the expired row and leave the world as it is: the
    write happens once. *)
Theorem resolve_status_once pid row w :
  fetchone (select_proposal pid (db w)) = Some row →
  let res := get_proposal_or_404 clock pid w in
  (p_status row = active ∧ clock (ticks w) > p_deadline row →
     res = (Return (set_status expired row),
            World (update_status expired pid (db w)) (S (ticks w)))
     ∧ fetchone (select_proposal pid (db res.2))
       = Some (set_status expired row)
     ∧ ∀ (n t : nat),
         resolve_times clock n pid (World (db res.2) t)
         = (Return (replicate n (set_status expired row)),
            World (db res.2) t))
  ∧ (¬ (p_status row = active ∧ clock (ticks w) > p_deadline row) →
     res.1 = Return row ∧ db res.2 = db w).
Proof.
  intros Hrow res. split.
  - intros [Hst Hnow]. subst res.
    rewrite (resolve_expire _ _ _ Hrow Hst Hnow). simpl.
    assert (Hrow' : fetchone (select_proposal pid
                      (update_status expired pid (db w)))
                    = Some (set_status expired row))
      by (by rewrite select_update_same, Hrow).
    split_and!; [done..|].
    intros n t. by apply resolve_times_settled.
  - intros Hno. subst res.
    destruct (decide (p_status row = active)) as [Hst|Hst].
    + assert (clock (ticks w) ≤ p_deadline row) as Hnow
        by (destruct (decide (clock (ticks w) > p_deadline row));
            [tauto|lia]).
      by rewrite (resolve_in_time _ _ _ Hrow Hst Hnow).
    + by rewrite (resolve_settled _ _ _ Hrow Hst).
Qed.

End Resolution.

Lemma resolve_status_once_witness :
  let w := World (sample_store active) 3 in
  get_proposal_or_404 sample_clock 1 w
  = (Return (sample_proposal expired),
     World (sample_store expired) 4)
  ∧ ∀ n t : nat,
      resolve_times sample_clock n 1 (World (sample_store expired) t)
      = (Return (replicate n (sample_proposal expired)),
         World (sample_store expired) t).
Proof.
  intros w.
  destruct (resolve_status_once sample_clock 1 (sample_proposal active) w)
    as [Hexp _]; [reflexivity|].
  destruct Hexp as (Hres & _ & Hagain);
    [split; [reflexivity|vm_compute; reflexivity]|].
  split; [exact Hres|].
  intros n t. specialize (Hagain n t). rewrite Hres in Hagain. exact Hagain.
Defined.

(** ** Closing a proposal *)

Section Close.

Variable clock : nat → Z.

Lemma close_proposal_forbidden pid token w :
  token ≠ Some ADMIN_TOKEN →
  close_proposal clock pid token w = (Raise Forbidden, w).
Proof.
  intros Htok. unfold close_proposal. by rewrite decide_True.
Qed.

(** C10. With a credential other than the admin token, an absent one
    included, [close] answers Forbidden and the world is unchanged,
    whether the proposal exists or not: the test comes before any
    statement is run, so the answer does not depend on the store, no
    clock is read and no expiry is written. *)
Theorem close_unauthorized pid token w :
  token ≠ Some ADMIN_TOKEN →
  close_proposal clock pid token w = (Raise Forbidden, w)
  ∧ ∀ pid' w', (close_proposal clock pid' token w').1
               = (close_proposal clock pid token w).1.
Proof.
  intros Htok. split; [by apply close_proposal_forbidden|].
  intros pid' w'. by rewrite !close_proposal_forbidden.
Qed.

Lemma tally_votes_update st pid pid' s :
  tally_votes pid' (update_status st pid s) = tally_votes pid' s.
Proof. reflexivity. Qed.

Lemma close_proposal_closes pid row w :
  fetchone (select_proposal pid (db w)) = Some row →
  close_proposal clock pid (Some ADMIN_TOKEN) w
  = (Return (proposal_out (set_status closed row)
                          (tally_votes pid (db w))),
     World (update_status closed pid (db w)) (ticks w))
  ∧ fetchone (select_proposal pid (update_status closed pid (db w)))
    = Some (set_status closed row).
Proof.
  intros Hrow.
  assert (Hrow' : fetchone (select_proposal pid
                    (update_status closed pid (db w)))
                  = Some (set_status closed row))
    by (by rewrite select_update_same, Hrow).
  split; [|done].
  unfold close_proposal. rewrite decide_False by (by intros []).
  unfold mbind, M_bind at 1. rewrite (fetch_by_id_Some _ _ _ _ Hrow).
  unfold mbind, M_bind at 1. unfold execute at 1.
  unfold M_bind at 1.
  rewrite (resolve_settled clock pid (set_status closed row)) by done.
  reflexivity.
Qed.

Lemma close_proposal_missing pid w :
  fetchone (select_proposal pid (db w)) = None →
  int64 pid →
  close_proposal clock pid (Some ADMIN_TOKEN) w = (Raise NotFound_proposal, w).
Proof.
  intros Hrow Hid. unfold close_proposal.
  rewrite decide_False by (by intros []).
  unfold mbind, M_bind. by rewrite fetch_by_id_None.
Qed.

Lemma close_proposal_unbound pid w :
  fetchone (select_proposal pid (db w)) = None →
  ¬ int64 pid →
  close_proposal clock pid (Some ADMIN_TOKEN) w = (Raise OverflowError, w).
Proof.
  intros Hrow Hid. unfold close_proposal.
  rewrite decide_False by (by intros []).
  unfold mbind, M_bind. by rewrite fetch_by_id_unbound.
Qed.


(** C1, amended. With the admin token, [close] on an existing proposal
    succeeds whatever the stored status and whatever the deadline: it
    writes the status closed without resolving first and returns the
    proposal as closed, so it never answers InvalidState. *)
Theorem close_forces_closed pid row w :
  fetchone (select_proposal pid (db w)) = Some row →
  close_proposal clock pid (Some ADMIN_TOKEN) w
  = (Return (proposal_out (set_status closed row)
                          (tally_votes pid (db w))),
     World (update_status closed pid (db w)) (ticks w))
  ∧ fetchone (select_proposal pid (update_status closed pid (db w)))
    = Some (set_status closed row)
  ∧ ∀ detail, (close_proposal clock pid (Some ADMIN_TOKEN) w).1
              ≠ Raise (HTTPException 400 detail).
Proof.
  intros Hrow. destruct (close_proposal_closes pid row w Hrow) as [Hres Hst].
  split_and!; [done..|]. intros detail. by rewrite Hres.
Qed.

End Close.

Lemma close_unauthorized_witness :
  close_proposal sample_clock 1 None (World (sample_store active) 0)
  = (Raise Forbidden, World (sample_store active) 0).
Proof.
  destruct (close_unauthorized sample_clock 1 None
              (World (sample_store active) 0)) as [Hres _];
    [discriminate|exact Hres].
Defined.

Lemma close_forces_closed_witness :
  (close_proposal sample_clock 1 (Some ADMIN_TOKEN)
     (World (sample_store expired) 0)).2
  = World (sample_store closed) 0.
Proof.
  destruct (close_forces_closed sample_clock 1 (sample_proposal expired)
              (World (sample_store expired) 0)) as (Hres & _);
    [reflexivity|].
  rewrite Hres. reflexivity.
Defined.

(** C1 as stated fails: proposal 1 is stored as expired, resolution yields
    expired, and [close] with the admin token still succeeds and turns the
    stored status into closed. *)
Lemma close_expired_succeeds :
  let w := World (sample_store expired) 0 in
  (get_proposal_or_404 sample_clock 1 w).1 = Return (sample_proposal expired)
  ∧ (close_proposal sample_clock 1 (Some ADMIN_TOKEN) w).1
    = Return (proposal_out (sample_proposal closed) (0, 0, 0))
  ∧ db (close_proposal sample_clock 1 (Some ADMIN_TOKEN) w).2
    = sample_store closed
  ∧ ¬ ∃ detail, (close_proposal sample_clock 1 (Some ADMIN_TOKEN) w).1
                = Raise (HTTPException 400 detail).
Proof.
  intros w. split_and!; [reflexivity..|].
  intros [detail Hd]. vm_compute in Hd. discriminate.
Qed.

(** ** The tally *)

Section Tally.

Implicit Types (s : store) (counts : gmap string Z).

(** Overwriting a dictionary with one entry per key of [ks]. *)
Lemma lookup_foldl_groups (g : string → Z) (ks : list string) counts k :
  foldl (λ counts (r : string * Z), <[r.1 := r.2]> counts) counts
        ((λ c, (c, g c)) <$> ks) !! k
  = if decide (k ∈ ks) then Some (g k) else counts !! k.
Proof.
  revert counts. induction ks as [|c ks IH]; intros counts.
  - by rewrite decide_False by apply not_elem_of_nil.
  - rewrite fmap_cons. cbn [foldl]. rewrite IH. cbn [fst snd].
    destruct (decide (k ∈ ks)) as [Hin|Hni].
    + by rewrite decide_True by (by right).
    + destruct (decide (k = c)) as [->|Hne].
      * rewrite lookup_insert_eq. by rewrite decide_True by left.
      * rewrite lookup_insert_ne by done.
        by rewrite decide_False by (rewrite elem_of_cons; tauto).
Qed.

Lemma filter_absent_nil (c : string) (rows : list vote_row) :
  c ∉ v_vote <$> rows → filter (λ v, v_vote v = c) rows = [].
Proof.
  induction rows as [|v rows IH]; [done|].
  rewrite fmap_cons, not_elem_of_cons. intros [Hne Hni].
  rewrite filter_cons, decide_False by congruence. auto.
Qed.

Lemma count_votes_filter pid c s :
  Z.of_nat (length (filter (λ v, v_vote v = c)
                      (filter (λ v, v_proposal_id v = pid) (votes s))))
  = count_votes pid c s.
Proof.
  unfold count_votes. rewrite list_filter_filter.
  do 2 f_equal. apply list_filter_iff. tauto.
Qed.

(** What [tally_votes] reads in its dictionary under a key that the
    dictionary starts with. *)
Lemma tally_entry pid s (c : string) (counts : gmap string Z) :
  counts !! c = Some 0 →
  foldl (λ counts (r : string * Z), <[r.1 := r.2]> counts) counts
        (select_vote_counts pid s) !!! c
  = count_votes pid c s.
Proof.
  intros Hinit. rewrite lookup_total_alt. unfold select_vote_counts.
  rewrite (lookup_foldl_groups
             (λ c, Z.of_nat (length (filter (λ v, v_vote v = c)
                (filter (λ v, v_proposal_id v = pid) (votes s)))))).
  destruct (decide _) as [Hin|Hni]; simpl.
  - apply count_votes_filter.
  - rewrite Hinit; simpl. rewrite <- count_votes_filter.
    rewrite elem_of_remove_dups in Hni.
    by rewrite filter_absent_nil.
Qed.

(** C8. For every proposal id and every store, [tally_votes] returns the
    numbers of votes stored for that proposal with choice yes, no and
    abstain, a choice without votes counting 0. It is computed from the
    votes table alone at every call, it leaves the world as it is, and an
    id without vote rows, that of a proposal that does not exist included,
    gives (0, 0, 0). *)
Theorem tally_votes_exact pid s :
  tally_votes pid s
  = (count_votes pid "yes" s, count_votes pid "no" s,
     count_votes pid "abstain" s)
  ∧ (∀ s', votes s' = votes s → tally_votes pid s' = tally_votes pid s)
  ∧ (∀ w, query (tally_votes pid) w = (Return (tally_votes pid (db w)), w))
  ∧ (filter (λ v, v_proposal_id v = pid) (votes s) = [] →
     tally_votes pid s = (0, 0, 0)).
Proof.
  assert (Hexact : ∀ s0, tally_votes pid s0
            = (count_votes pid "yes" s0, count_votes pid "no" s0,
               count_votes pid "abstain" s0)).
  { intros s0. unfold tally_votes. by rewrite !tally_entry. }
  split_and!; [apply Hexact| |done|].
  - intros s' Hvotes. rewrite !Hexact. unfold count_votes.
    by rewrite Hvotes.
  - intros Hnone. rewrite Hexact. unfold count_votes.
    assert (Hc : ∀ c, filter (λ v, v_proposal_id v = pid ∧ v_vote v = c)
                        (votes s) = []).
    { intros c. apply elem_of_nil_inv.
      intros v [[Hpid _] Hin]%list_elem_of_filter.
      apply (filter_nil_not_elem_of _ _ v Hnone); done. }
    by rewrite !Hc.
Qed.

End Tally.

Lemma tally_votes_exact_witness :
  tally_votes 7 (sample_store active) = (0, 0, 0).
Proof.
  destruct (tally_votes_exact 7 (sample_store active)) as (_ & _ & _ & Hzero).
  apply Hzero. reflexivity.
Defined.

(** ** The writes of the handlers *)

(** Every handler is a sequence of a few guarded writes. The relation
    [effect] lists them with the facts the handler has checked when it
    commits; the invariants of the store are then proved write by
    write. *)

Section Effects.

Variable clock : nat → Z.
Implicit Types (w : world) (s : store) (t : nat).

Inductive effect : world → world → Prop :=
  | Effect_tick s t :
      effect (World s t) (World s (S t))
  | Effect_expire s t pid row :
      fetchone (select_proposal pid s) = Some row →
      p_status row = active →
      clock t > p_deadline row →
      effect (World s t) (World (update_status expired pid s) (S t))
  | Effect_close s t pid row :
      fetchone (select_proposal pid s) = Some row →
      effect (World s t) (World (update_status closed pid s) t)
  | Effect_create s t ttl descr created_at deadline :
      effect (World s t)
        (World (add_proposal
                  (ProposalRow
                     (next_rowid (proposals_seq s) (p_id <$> proposals s))
                     ttl descr created_at deadline active) s) t)
  | Effect_cast s t pid row name choice :
      fetchone (select_proposal pid s) = Some row →
      p_status row = active →
      clock t ≤ p_deadline row →
      select_vote_of pid name s = [] →
      choice ∈ choices →
      effect (World s t)
        (World (add_vote
                  (VoteRow (next_rowid (votes_seq s) (v_id <$> votes s))
                           pid name choice (clock (S t))) s)
               (S (S t)))
  | Effect_revoke s t vid v row :
      fetchone (select_vote vid s) = Some v →
      fetchone (select_proposal (v_proposal_id v) s) = Some row →
      p_status row = active →
      clock t ≤ p_deadline row →
      effect (World s t) (World (delete_vote vid s) (S t)).

(** A computation all of whose runs are sequences of such writes. *)
Definition effects {A : Type} (m : M A) : Prop :=
  ∀ w, rtc effect w (m w).2.

Lemma effects_bind {A B : Type} (m : M A) (f : A → M B) :
  effects m → (∀ a, effects (f a)) → effects (m ≫= f).
Proof.
  intros Hm Hf w. unfold mbind, M_bind. specialize (Hm w).
  destruct (m w) as [[a|e] w']; simpl in *; [|done].
  etrans; [exact Hm|apply Hf].
Qed.

Lemma effects_ret {A : Type} (a : A) : effects (mret a).
Proof. intros w. done. Qed.

Lemma effects_raise {A : Type} (e : exn) : effects (@raise A e).
Proof. intros w. done. Qed.

Lemma effects_lift {A : Type} (o : outcome A) : effects (lift o).
Proof. intros w. done. Qed.

Lemma effects_query {A : Type} (q : store → A) : effects (query q).
Proof. intros w. done. Qed.

Lemma effects_utcnow : effects (utcnow clock).
Proof. intros [s t]. apply rtc_once. constructor. Qed.

Lemma effects_insert_proposal ttl descr created_at deadline :
  effects (insert_proposal ttl descr created_at deadline active).
Proof. intros [s t]. apply rtc_once. constructor. Qed.

Lemma effects_get_proposal_or_404 pid : effects (get_proposal_or_404 clock pid).
Proof.
  intros w. destruct (get_proposal_or_404_resolved clock pid w); simpl;
    [done|done|done|destruct w; apply rtc_once; constructor|].
  destruct w as [s t]. apply rtc_once. by econstructor.
Qed.

Create HintDb effects.

Local Hint Resolve effects_ret effects_raise effects_lift effects_query
  effects_utcnow effects_insert_proposal effects_get_proposal_or_404
  : effects.

Ltac effects_steps :=
  repeat first
    [ solve [eauto with effects]
    | apply effects_bind; [|intros ?]
    | match goal with |- effects (match ?x with _ => _ end) => destruct x end
    | match goal with |- effects (if ?x then _ else _) => destruct x end ].

Lemma effects_create_proposal payload : effects (create_proposal clock payload).
Proof. unfold create_proposal. effects_steps. Qed.

Lemma effects_get_proposals_loop ids : effects (get_proposals_loop clock ids).
Proof.
  induction ids as [|pid ids IH]; simpl; [apply effects_ret|].
  unfold get_proposals_item. effects_steps.
Qed.

Lemma effects_get_proposals : effects (get_proposals clock).
Proof.
  unfold get_proposals. apply effects_bind; [apply effects_query|].
  apply effects_get_proposals_loop.
Qed.

Lemma effects_get_proposal pid : effects (get_proposal clock pid).
Proof. unfold get_proposal. effects_steps. Qed.

Lemma effects_list_votes : effects list_votes.
Proof. unfold list_votes. effects_steps. Qed.

Lemma effects_close_proposal pid token : effects (close_proposal clock pid token).
Proof.
  intros [s t]. unfold close_proposal.
  destruct (decide (token ≠ Some ADMIN_TOKEN)); [done|].
  unfold mbind, M_bind at 1. unfold fetch_by_id at 1. cbn [db].
  destruct (fetchone (select_proposal pid s)) as [row|] eqn:Hrow;
    [|destruct (decide (int64 pid)); apply rtc_refl].
  unfold mbind, M_bind at 1. unfold execute at 1.
  apply (rtc_l _ _ (World (update_status closed pid s) t));
    [by eapply Effect_close|].
  assert (He : effects (row0 ← get_proposal_or_404 clock pid;
                        t ← query (tally_votes pid);
                        mret (proposal_out row0 t))) by effects_steps.
  apply (He (World (update_status closed pid s) t)).
Qed.

End Effects.

(** ** Casting and revoking a vote *)

Section Votes.

Variable clock : nat → Z.
Implicit Types (w : world) (s : store) (row : proposal_row) (v : vote_row).

(** The row [submit_vote] inserts in world [w]. *)
Definition new_vote (pid : Z) (payload : VoteCreate) w : vote_row :=
  VoteRow (next_rowid (votes_seq (db w)) (v_id <$> votes (db w)))
          pid (voter_name payload) (vote payload) (clock (ticks w)).

Lemma submit_vote_unresolved pid payload w e w1 :
  get_proposal_or_404 clock pid w = (Raise e, w1) →
  submit_vote clock pid payload w = (Raise e, w1).
Proof.
  intros Hget. unfold submit_vote, mbind, M_bind at 1. by rewrite Hget.
Qed.

Lemma submit_vote_not_active pid payload w row w1 :
  get_proposal_or_404 clock pid w = (Return row, w1) →
  p_status row ≠ active →
  submit_vote clock pid payload w = (Raise InvalidState_vote, w1).
Proof.
  intros Hget Hst. unfold submit_vote, mbind, M_bind at 1. rewrite Hget.
  by rewrite decide_True.
Qed.

Lemma submit_vote_conflict pid payload w row w1 :
  get_proposal_or_404 clock pid w = (Return row, w1) →
  p_status row = active →
  select_vote_of pid (voter_name payload) (db w1) ≠ [] →
  submit_vote clock pid payload w = (Raise Conflict, w1).
Proof.
  intros Hget Hst Hex. unfold submit_vote, mbind, M_bind at 1. rewrite Hget.
  rewrite decide_False by (by intros []).
  unfold mbind, M_bind, query, fetchone.
  by destruct (select_vote_of pid (voter_name payload) (db w1)).
Qed.

Lemma select_vote_added v s :
  v_id v = next_rowid (votes_seq s) (v_id <$> votes s) →
  fetchone (select_vote (v_id v) (add_vote v s)) = Some v.
Proof.
  intros Hid. unfold fetchone, select_vote, add_vote; simpl.
  rewrite filter_app, filter_fresh_nil
    by (rewrite Hid; apply next_rowid_not_elem).
  by rewrite filter_cons, decide_True.
Qed.

Lemma submit_vote_insert pid payload w row w1 :
  get_proposal_or_404 clock pid w = (Return row, w1) →
  p_status row = active →
  select_vote_of pid (voter_name payload) (db w1) = [] →
  vote payload ∈ choices →
  submit_vote clock pid payload w
  = (Return (vote_out (new_vote pid payload w1)),
     World (add_vote (new_vote pid payload w1) (db w1)) (S (ticks w1))).
Proof.
  intros Hget Hst Hnone Hchoice.
  unfold submit_vote, mbind, M_bind at 1. rewrite Hget.
  rewrite decide_False by (by intros []).
  unfold mbind, M_bind at 1. unfold query at 1. rewrite Hnone.
  cbn [fetchone head].
  unfold mbind, M_bind at 1. unfold utcnow at 1.
  unfold mbind, M_bind at 1. unfold insert_vote at 1. cbn [db ticks].
  rewrite decide_True by done. rewrite decide_True by done.
  unfold mbind, M_bind, query. cbn [db].
  pose proof (select_vote_added (new_vote pid payload w1) (db w1)
                eq_refl) as Hsel.
  unfold new_vote in *. cbn [v_id] in Hsel. by rewrite Hsel.
Qed.

Lemma submit_vote_rejected pid payload w row w1 :
  get_proposal_or_404 clock pid w = (Return row, w1) →
  p_status row = active →
  select_vote_of pid (voter_name payload) (db w1) = [] →
  vote payload ∉ choices →
  submit_vote clock pid payload w
  = (Raise IntegrityError, World (db w1) (S (ticks w1))).
Proof.
  intros Hget Hst Hnone Hchoice.
  unfold submit_vote, mbind, M_bind at 1. rewrite Hget.
  rewrite decide_False by (by intros []).
  unfold mbind, M_bind at 1. unfold query at 1. rewrite Hnone.
  cbn [fetchone head].
  unfold mbind, M_bind at 1. unfold utcnow at 1.
  unfold mbind, M_bind at 1. unfold insert_vote at 1. cbn [db ticks].
  by rewrite decide_False by done.
Qed.

Lemma revoke_vote_missing vid w :
  fetchone (select_vote vid (db w)) = None →
  int64 vid →
  revoke_vote clock vid w = (Raise NotFound_vote, w).
Proof.
  intros Hv Hid. unfold revoke_vote, mbind, M_bind.
  by rewrite fetch_by_id_None.
Qed.

Lemma revoke_vote_unbound vid w :
  fetchone (select_vote vid (db w)) = None →
  ¬ int64 vid →
  revoke_vote clock vid w = (Raise OverflowError, w).
Proof.
  intros Hv Hid. unfold revoke_vote, mbind, M_bind.
  by rewrite fetch_by_id_unbound.
Qed.

(** A revoke of an id that is not stored fails and leaves the world as it
    is. *)
Lemma revoke_vote_absent vid w :
  fetchone (select_vote vid (db w)) = None →
  ∃ e, revoke_vote clock vid w = (Raise e, w)
       ∧ (e = NotFound_vote ∨ e = OverflowError).
Proof.
  intros Hv. destruct (decide (int64 vid)) as [Hid|Hid].
  - exists NotFound_vote. split; [by apply revoke_vote_missing|by left].
  - exists OverflowError. split; [by apply revoke_vote_unbound|by right].
Qed.

Lemma revoke_vote_unresolved vid v w e w1 :
  fetchone (select_vote vid (db w)) = Some v →
  get_proposal_or_404 clock (v_proposal_id v) w = (Raise e, w1) →
  revoke_vote clock vid w = (Raise e, w1).
Proof.
  intros Hv Hget. unfold revoke_vote, mbind, M_bind at 1.
  rewrite (fetch_by_id_Some _ _ _ _ Hv). unfold mbind, M_bind.
  by rewrite Hget.
Qed.

Lemma revoke_vote_not_active vid v w row w1 :
  fetchone (select_vote vid (db w)) = Some v →
  get_proposal_or_404 clock (v_proposal_id v) w = (Return row, w1) →
  p_status row ≠ active →
  revoke_vote clock vid w = (Raise InvalidState_revoke, w1).
Proof.
  intros Hv Hget Hst. unfold revoke_vote, mbind, M_bind at 1.
  rewrite (fetch_by_id_Some _ _ _ _ Hv). unfold mbind, M_bind. rewrite Hget.
  by rewrite decide_True.
Qed.

Lemma revoke_vote_delete vid v w row w1 :
  fetchone (select_vote vid (db w)) = Some v →
  get_proposal_or_404 clock (v_proposal_id v) w = (Return row, w1) →
  p_status row = active →
  revoke_vote clock vid w
  = (Return tt, World (delete_vote vid (db w1)) (ticks w1)).
Proof.
  intros Hv Hget Hst. unfold revoke_vote, mbind, M_bind at 1.
  rewrite (fetch_by_id_Some _ _ _ _ Hv). unfold mbind, M_bind. rewrite Hget.
  by rewrite decide_False by (by intros []).
Qed.

End Votes.

(** ** Every request is a sequence of guarded writes *)

Section Traces.

Variable clock : nat → Z.
Implicit Types (w : world) (s : store).

Lemma resolved_active_in_time pid w row w1 :
  get_proposal_or_404 clock pid w = (Return row, w1) →
  p_status row = active →
  fetchone (select_proposal pid (db w)) = Some row
  ∧ clock (ticks w) ≤ p_deadline row
  ∧ w1 = World (db w) (S (ticks w)).
Proof.
  intros Hget Hst.
  pose proof (get_proposal_or_404_resolved clock pid w) as Hres.
  rewrite Hget in Hres. inversion Hres; subst; try done.
Qed.

Lemma effects_submit_vote pid payload :
  effects clock (submit_vote clock pid payload).
Proof.
  intros w. pose proof (effects_get_proposal_or_404 clock pid w) as Hrtc.
  destruct (get_proposal_or_404 clock pid w) as [[row|e] w1] eqn:Hget;
    [|by rewrite (submit_vote_unresolved _ _ _ _ _ _ Hget)].
  destruct (decide (p_status row = active)) as [Hst|Hst];
    [|by rewrite (submit_vote_not_active _ _ _ _ _ _ Hget Hst)].
  destruct (decide (select_vote_of pid (voter_name payload) (db w1) = []))
    as [Hnone|Hsome];
    [|by rewrite (submit_vote_conflict _ _ _ _ _ _ Hget Hst Hsome)].
  destruct (resolved_active_in_time _ _ _ _ Hget Hst) as (Hrow & Hnow & ->).
  destruct w as [s t]. cbn [db ticks] in *.
  destruct (decide (vote payload ∈ choices)) as [Hc|Hc].
  - rewrite (submit_vote_insert _ _ _ _ _ _ Hget Hst Hnone Hc).
    apply rtc_once. unfold new_vote. cbn [db ticks snd].
    by eapply Effect_cast.
  - rewrite (submit_vote_rejected _ _ _ _ _ _ Hget Hst Hnone Hc).
    cbn [db ticks snd].
    eapply rtc_l; [apply Effect_tick|]. apply rtc_once, Effect_tick.
Qed.

Lemma effects_revoke_vote vid : effects clock (revoke_vote clock vid).
Proof.
  intros w.
  destruct (fetchone (select_vote vid (db w))) as [v|] eqn:Hv;
    [|by destruct (revoke_vote_absent clock _ _ Hv) as (e & -> & _)].
  pose proof (effects_get_proposal_or_404 clock (v_proposal_id v) w) as Hrtc.
  destruct (get_proposal_or_404 clock (v_proposal_id v) w)
    as [[row|e] w1] eqn:Hget;
    [|by rewrite (revoke_vote_unresolved _ _ _ _ _ _ Hv Hget)].
  destruct (decide (p_status row = active)) as [Hst|Hst];
    [|by rewrite (revoke_vote_not_active _ _ _ _ _ _ Hv Hget Hst)].
  rewrite (revoke_vote_delete _ _ _ _ _ _ Hv Hget Hst).
  destruct (resolved_active_in_time _ _ _ _ Hget Hst) as (Hrow & Hnow & ->).
  destruct w as [s t]. cbn [db ticks snd] in *.
  apply rtc_once. by eapply Effect_revoke.
Qed.

Lemma effects_handle r : effects clock (handle clock r).
Proof.
  destruct r; unfold handle;
    (first [apply effects_ret | apply effects_bind; [|intros ?]]);
    auto using effects_ret, effects_lift, effects_get_proposals,
      effects_get_proposal, effects_revoke_vote, effects_close_proposal,
      effects_list_votes.
  - apply effects_bind; [apply effects_create_proposal|intros ?].
    apply effects_ret.
  - apply effects_bind; [apply effects_submit_vote|intros ?].
    apply effects_ret.
Qed.

Lemma effects_run rs w : rtc (effect clock) w (run clock rs w).
Proof.
  revert w. induction rs as [|r rs IH]; intros w; [done|].
  unfold run in *. cbn [foldl].
  etrans; [apply effects_handle|apply IH].
Qed.

End Traces.

(** ** The life cycle of a proposal *)

(** The status changes the handlers can make to a stored proposal. *)
Inductive transition : ProposalStatus → ProposalStatus → Prop :=
  | Transition_none st : transition st st
  | Transition_expire : transition active expired
  | Transition_close : transition active closed
  | Transition_close_expired : transition expired closed.

(** Store [s'] holds every proposal of [s], with the same columns but for
    a status that moved along [transition]. *)
Definition evolves (s s' : store) : Prop :=
  ∀ pid row,
    fetchone (select_proposal pid s) = Some row →
    ∃ st', fetchone (select_proposal pid s') = Some (set_status st' row)
           ∧ transition (p_status row) st'.

Section Lifecycle.

Variable clock : nat → Z.
Implicit Types (w : world) (s : store) (row : proposal_row).

Lemma transition_trans st1 st2 st3 :
  transition st1 st2 → transition st2 st3 → transition st1 st3.
Proof. intros H12 H23. destruct H12; inversion H23; subst; constructor. Qed.

Lemma transition_to_closed st : transition st closed.
Proof. destruct st; constructor. Qed.

Lemma evolves_refl s : evolves s s.
Proof.
  intros pid row Hrow. exists (p_status row).
  rewrite set_status_same. split; [done|constructor].
Qed.

Lemma evolves_trans s1 s2 s3 : evolves s1 s2 → evolves s2 s3 → evolves s1 s3.
Proof.
  intros H12 H23 pid row Hrow.
  destruct (H12 pid row Hrow) as (st2 & Hrow2 & Ht2).
  destruct (H23 pid _ Hrow2) as (st3 & Hrow3 & Ht3).
  exists st3. split; [done|]. by eapply transition_trans.
Qed.

Lemma evolves_update st pid0 s :
  (∀ row, fetchone (select_proposal pid0 s) = Some row →
          transition (p_status row) st) →
  evolves s (update_status st pid0 s).
Proof.
  intros Hst pid row Hrow. destruct (decide (pid = pid0)) as [->|Hne].
  - exists st. rewrite select_update_same, Hrow. auto.
  - exists (p_status row).
    rewrite select_update_other, set_status_same by done.
    split; [done|constructor].
Qed.

Lemma evolves_add_proposal r s : evolves s (add_proposal r s).
Proof.
  intros pid row Hrow. exists (p_status row). rewrite set_status_same.
  split; [|constructor].
  unfold fetchone, select_proposal, add_proposal in *; simpl.
  rewrite filter_app. by apply head_app_nonempty.
Qed.

Lemma evolves_same_proposals s s' : proposals s' = proposals s → evolves s s'.
Proof.
  intros Heq pid row Hrow. exists (p_status row). rewrite set_status_same.
  split; [|constructor]. unfold select_proposal in *. by rewrite Heq.
Qed.

Lemma effect_evolves w w' : effect clock w w' → evolves (db w) (db w').
Proof.
  intros []; cbn [db].
  - apply evolves_refl.
  - apply evolves_update. intros row' Hrow'.
    replace row' with row by congruence.
    replace (p_status row) with active by done. constructor.
  - apply evolves_update. intros; apply transition_to_closed.
  - apply evolves_add_proposal.
  - by apply evolves_same_proposals.
  - by apply evolves_same_proposals.
Qed.

Lemma effects_evolve w w' : rtc (effect clock) w w' → evolves (db w) (db w').
Proof.
  induction 1 as [|w1 w2 w3 Hstep _ IH]; [apply evolves_refl|].
  eapply evolves_trans; [by apply effect_evolves|done].
Qed.

(** C2, amended. Along every sequence of requests a stored proposal keeps
    its columns and its status only moves along [transition]: from active
    to closed or to expired, and from expired to closed (by a [close] with
    the admin token). Closed is terminal, and a proposal that is no longer
    active never becomes active again. *)
Theorem status_transitions_monotone rs w pid row :
  fetchone (select_proposal pid (db w)) = Some row →
  ∃ st', fetchone (select_proposal pid (db (run clock rs w)))
         = Some (set_status st' row)
         ∧ transition (p_status row) st'
         ∧ (p_status row = closed → st' = closed)
         ∧ (p_status row ≠ active → st' ≠ active).
Proof.
  intros Hrow.
  destruct (effects_evolve w _ (effects_run clock rs w) pid row Hrow)
    as (st' & Hrow' & Ht).
  exists st'. split_and!; [done..| |].
  - intros Hc. rewrite Hc in Ht. by inversion Ht.
  - intros Hna ->. by inversion Ht.
Qed.

End Lifecycle.

Lemma status_transitions_monotone_witness :
  ∃ st', fetchone (select_proposal 1
           (db (run sample_clock [GET_proposal 1; PATCH_close 1 None]
                  (World (sample_store active) 3))))
         = Some (set_status st' (sample_proposal active))
         ∧ transition active st'.
Proof.
  destruct (status_transitions_monotone sample_clock
              [GET_proposal 1; PATCH_close 1 None]
              (World (sample_store active) 3) 1 (sample_proposal active))
    as (st' & Hrow & Ht & _); [reflexivity|].
  exists st'. split; [exact Hrow|exact Ht].
Defined.

(** C2 as stated fails: expired is not terminal. Proposal 1 is stored as
    expired, and one [close] with the admin token leaves it closed. *)
Lemma expired_is_not_terminal :
  let w := World (sample_store expired) 0 in
  let w' := run sample_clock [PATCH_close 1 (Some ADMIN_TOKEN)] w in
  p_status <$> fetchone (select_proposal 1 (db w)) = Some expired
  ∧ p_status <$> fetchone (select_proposal 1 (db w')) = Some closed.
Proof. split; reflexivity. Qed.

(** ** The vote ledger *)

(** The pair the [UNIQUE] constraint of table [votes] bears on. *)
Definition vote_key (v : vote_row) : Z * string :=
  (v_proposal_id v, v_voter_name v).

(** At most one vote per proposal and voter. *)
Definition votes_unique (s : store) : Prop := NoDup (vote_key <$> votes s).

(** The primary keys of both tables. *)
Definition ids_unique (s : store) : Prop :=
  NoDup (p_id <$> proposals s) ∧ NoDup (v_id <$> votes s).

Section Ledger.

Variable clock : nat → Z.
Implicit Types (w : world) (s : store) (v : vote_row).

Lemma NoDup_fmap_filter {A B : Type} (f : A → B) (P : A → Prop)
    `{!∀ x, Decision (P x)} (l : list A) :
  NoDup (f <$> l) → NoDup (f <$> filter P l).
Proof.
  induction l as [|x l IH]; [done|].
  rewrite fmap_cons, NoDup_cons. intros [Hx Hl].
  rewrite filter_cons. destruct (decide (P x)); [|auto].
  rewrite fmap_cons, NoDup_cons. split; [|auto].
  intros (y & Hy & Hin)%list_elem_of_fmap.
  apply list_elem_of_filter in Hin as [_ Hin].
  apply Hx. rewrite Hy. by apply list_elem_of_fmap_2.
Qed.

Lemma NoDup_fmap_snoc {A B : Type} (f : A → B) (l : list A) (x : A) :
  NoDup (f <$> l) → f x ∉ f <$> l → NoDup (f <$> (l ++ [x])%list).
Proof.
  intros Hl Hx. rewrite fmap_app. apply NoDup_app. split_and!; [done| |].
  - intros y Hy ->%list_elem_of_singleton. done.
  - apply NoDup_singleton.
Qed.

(** Under a duplicate-free column, a row is determined by its value. *)
Lemma NoDup_fmap_elem_eq {A B : Type} (f : A → B) (l : list A) (x y : A) :
  NoDup (f <$> l) → x ∈ l → y ∈ l → f x = f y → x = y.
Proof.
  induction l as [|z l IH]; [by intros _ ?%elem_of_nil|].
  rewrite fmap_cons, NoDup_cons, !elem_of_cons.
  intros [Hz Hl] [->|Hx] [->|Hy] Heq; [done| | |by apply IH].
  - destruct Hz. rewrite Heq. by apply list_elem_of_fmap_2.
  - destruct Hz. rewrite <- Heq. by apply list_elem_of_fmap_2.
Qed.

Lemma update_status_ids st pid s :
  p_id <$> proposals (update_status st pid s) = p_id <$> proposals s.
Proof.
  unfold update_status; simpl. rewrite <- list_fmap_compose.
  apply list_fmap_ext. intros i r _. simpl. by destruct (decide _).
Qed.

(** The query of [submit_vote] finds a row exactly when the pair is in the
    table. *)
Lemma select_vote_of_nil pid name s :
  select_vote_of pid name s = [] ↔ (pid, name) ∉ vote_key <$> votes s.
Proof.
  unfold select_vote_of. split.
  - intros Hnil%fmap_nil_inv (v & Hkey & Hin)%list_elem_of_fmap.
    apply (filter_nil_not_elem_of _ _ v Hnil); [|done].
    unfold vote_key in Hkey. by inversion Hkey.
  - intros Hni.
    cut (filter (λ v, v_proposal_id v = pid ∧ v_voter_name v = name)
           (votes s) = []); [by intros ->|].
    apply elem_of_nil_inv.
    intros v [[Hp Hn] Hin]%list_elem_of_filter. apply Hni.
    apply list_elem_of_fmap. exists v. unfold vote_key.
    by rewrite Hp, Hn.
Qed.

Lemma effect_votes_unique w w' :
  effect clock w w' → votes_unique (db w) → votes_unique (db w').
Proof.
  unfold votes_unique. intros []; cbn [db]; try done.
  - intros Hu. unfold add_vote; simpl. apply NoDup_fmap_snoc; [done|].
    by apply select_vote_of_nil.
  - intros Hu. unfold delete_vote; simpl. by apply NoDup_fmap_filter.
Qed.

Lemma effect_ids_unique w w' :
  effect clock w w' → ids_unique (db w) → ids_unique (db w').
Proof.
  unfold ids_unique. intros []; cbn [db]; try done.
  - rewrite update_status_ids. done.
  - rewrite update_status_ids. done.
  - intros [Hp Hv]. split; [|done]. unfold add_proposal; simpl.
    apply NoDup_fmap_snoc; [done|]. apply next_rowid_not_elem.
  - intros [Hp Hv]. split; [done|]. unfold add_vote; simpl.
    apply NoDup_fmap_snoc; [done|]. apply next_rowid_not_elem.
  - intros [Hp Hv]. split; [done|]. unfold delete_vote; simpl.
    by apply NoDup_fmap_filter.
Qed.

Lemma run_votes_unique rs w :
  votes_unique (db w) → votes_unique (db (run clock rs w)).
Proof.
  intros Hu. induction (effects_run clock rs w) as [|w1 w2 w3 Hstep _ IH];
    [done|].
  apply IH. by eapply effect_votes_unique.
Qed.

Lemma run_ids_unique rs w :
  ids_unique (db w) → ids_unique (db (run clock rs w)).
Proof.
  intros Hu. induction (effects_run clock rs w) as [|w1 w2 w3 Hstep _ IH];
    [done|].
  apply IH. by eapply effect_ids_unique.
Qed.

(** A resolution does not touch the votes. *)
Lemma resolve_votes pid w :
  votes (db (get_proposal_or_404 clock pid w).2) = votes (db w).
Proof. by destruct (get_proposal_or_404_resolved clock pid w). Qed.

Lemma select_vote_of_votes pid name s s' :
  votes s' = votes s → select_vote_of pid name s' = select_vote_of pid name s.
Proof. unfold select_vote_of. by intros ->. Qed.

End Ledger.

Section LedgerClaims.

Variable clock : nat → Z.
Implicit Types (w : world) (s : store) (v : vote_row).

Lemma fetched_vote vid v s :
  fetchone (select_vote vid s) = Some v → v ∈ votes s ∧ v_id v = vid.
Proof.
  unfold fetchone, select_vote. intros Hv.
  apply head_Some_elem_of, list_elem_of_filter in Hv. tauto.
Qed.

(** What a successful [revoke_vote] has done. *)
Lemma revoke_vote_success vid w w1 :
  revoke_vote clock vid w = (Return tt, w1) →
  ∃ v row,
    fetchone (select_vote vid (db w)) = Some v
    ∧ fetchone (select_proposal (v_proposal_id v) (db w)) = Some row
    ∧ p_status row = active
    ∧ clock (ticks w) ≤ p_deadline row
    ∧ w1 = World (delete_vote vid (db w)) (S (ticks w)).
Proof.
  intros Hrev.
  destruct (fetchone (select_vote vid (db w))) as [v|] eqn:Hv;
    [|by destruct (revoke_vote_absent clock _ _ Hv) as (e & He & _);
         rewrite He in Hrev].
  destruct (get_proposal_or_404 clock (v_proposal_id v) w)
    as [[row|e] w'] eqn:Hget;
    [|by rewrite (revoke_vote_unresolved _ _ _ _ _ _ Hv Hget) in Hrev].
  destruct (decide (p_status row = active)) as [Hst|Hst];
    [|by rewrite (revoke_vote_not_active _ _ _ _ _ _ Hv Hget Hst) in Hrev].
  rewrite (revoke_vote_delete _ _ _ _ _ _ Hv Hget Hst) in Hrev.
  destruct (resolved_active_in_time _ _ _ _ _ Hget Hst) as (Hrow & Hnow & ->).
  exists v, row. split_and!; [done..|]. by inversion Hrev.
Qed.

(** C5. At most one vote per proposal and voter is a property of the empty
    store that every sequence of requests keeps. While a vote of the pair
    is stored, a cast for the pair fails and the votes are as they were:
    with Conflict when the proposal resolves to active (a proposal that is
    missing or not active fails earlier, with its own error). Once the vote
    is revoked, a new cast for the pair is accepted. *)
Theorem one_vote_per_voter :
  votes_unique empty_store
  ∧ (∀ rs w, votes_unique (db w) → votes_unique (db (run clock rs w)))
  ∧ (∀ pid payload w,
       select_vote_of pid (voter_name payload) (db w) ≠ [] →
       ∃ e w1,
         submit_vote clock pid payload w = (Raise e, w1)
         ∧ votes (db w1) = votes (db w)
         ∧ ∀ row, (get_proposal_or_404 clock pid w).1 = Return row →
                  p_status row = active → e = Conflict)
  ∧ (∀ vid v w w1 payload,
       votes_unique (db w) →
       fetchone (select_vote vid (db w)) = Some v →
       revoke_vote clock vid w = (Return tt, w1) →
       voter_name payload = v_voter_name v →
       vote payload ∈ choices →
       (∀ row, fetchone (select_proposal (v_proposal_id v) (db w1)) = Some row →
               clock (ticks w1) ≤ p_deadline row) →
       ∃ out w2,
         submit_vote clock (v_proposal_id v) payload w1 = (Return out, w2)
         ∧ vout_proposal_id out = v_proposal_id v
         ∧ vout_voter_name out = voter_name payload
         ∧ vout_vote out = vote payload).
Proof.
  split_and!.
  - apply NoDup_nil_2.
  - apply run_votes_unique.
  - intros pid payload w Hex.
    pose proof (resolve_votes clock pid w) as Hvotes.
    destruct (get_proposal_or_404 clock pid w) as [[row|e] w1] eqn:Hget;
      cbn [snd fst] in *.
    + destruct (decide (p_status row = active)) as [Hst|Hst].
      * exists Conflict, w1. split_and!; [|done..].
        apply (submit_vote_conflict _ _ _ _ _ _ Hget Hst).
        by rewrite (select_vote_of_votes _ _ _ _ Hvotes).
      * exists InvalidState_vote, w1. split_and!; [|done|].
        -- by apply (submit_vote_not_active _ _ _ _ _ _ Hget Hst).
        -- intros row' [= <-] Hact. done.
    + exists e, w1. split_and!; [|done..].
      by apply submit_vote_unresolved.
  - intros vid v w w1 payload Hu Hv Hrev Hname Hchoice Hnow.
    destruct (revoke_vote_success _ _ _ Hrev)
      as (v' & row & Hv' & Hrow & Hst & _ & ->).
    replace v' with v in * by congruence. clear Hv'.
    cbn [db ticks] in *. specialize (Hnow row Hrow).
    pose proof (resolve_in_time clock (v_proposal_id v) row
                  (World (delete_vote vid (db w)) (S (ticks w)))
                  Hrow Hst Hnow) as Hget.
    cbn [db ticks] in Hget.
    eexists _, _. split.
    + apply (submit_vote_insert _ _ _ _ _ _ Hget Hst); [|done].
      cbn [db]. apply select_vote_of_nil. unfold delete_vote; simpl.
      intros (v2 & Hkey & Hin)%list_elem_of_fmap.
      apply list_elem_of_filter in Hin as [Hne Hin].
      destruct (fetched_vote _ _ _ Hv) as [Hvin Hvid].
      apply Hne. rewrite <- Hvid. f_equal.
      apply (NoDup_fmap_elem_eq vote_key (votes (db w))); [done..|].
      rewrite <- Hkey. unfold vote_key. by rewrite Hname.
    + done.
Qed.

Lemma filter_keeps_all {A : Type} (P : A → Prop) `{!∀ x, Decision (P x)}
    (l : list A) :
  (∀ y, y ∈ l → P y) → filter P l = l.
Proof.
  induction l as [|x l IH]; [done|]. intros Hall.
  rewrite filter_cons, decide_True by (apply Hall; left).
  f_equal. apply IH. intros y Hy. apply Hall. by right.
Qed.




End LedgerClaims.

Lemma one_vote_per_voter_witness :
  ∃ e w1,
    submit_vote sample_clock 1 {| voter_name := "Alice"; vote := "no" |}
      (World sample_ballots 1) = (Raise e, w1)
    ∧ votes (db w1) = votes sample_ballots.
Proof.
  destruct (one_vote_per_voter sample_clock) as (_ & _ & Hsecond & _).
  destruct (Hsecond 1 {| voter_name := "Alice"; vote := "no" |}
              (World sample_ballots 1)) as (e & w1 & Hcast & Hvotes & _);
    [discriminate|].
  exists e, w1. split; [exact Hcast|exact Hvotes].
Defined.



(** ** Creating a proposal *)

Section Create.

Variable clock : nat → Z.
Implicit Types (w : world) (s : store) (payload : ProposalCreate).

(** The row [create_proposal] inserts in world [w] for [d] days. *)
Definition new_proposal payload (d : Z) w : proposal_row :=
  ProposalRow (next_rowid (proposals_seq (db w)) (p_id <$> proposals (db w)))
              (title payload) (description payload)
              (clock (ticks w)) (clock (ticks w) + d * US_PER_DAY) active.

(** The days [timedelta] and [datetime.__add__] accept at instant [now]. *)
Definition representable (now d : Z) : Prop :=
  - MAX_DELTA_DAYS ≤ d ≤ MAX_DELTA_DAYS
  ∧ 0 ≤ now + d * US_PER_DAY ≤ DATETIME_MAX.

Lemma select_proposal_added r s :
  p_id r = next_rowid (proposals_seq s) (p_id <$> proposals s) →
  fetchone (select_proposal (p_id r) (add_proposal r s)) = Some r.
Proof.
  intros Hid. unfold fetchone, select_proposal, add_proposal; simpl.
  rewrite filter_app, filter_fresh_nil
    by (rewrite Hid; apply next_rowid_not_elem).
  by rewrite filter_cons, decide_True.
Qed.

Lemma create_proposal_null payload w :
  days_open payload = None →
  create_proposal clock payload w
  = (Raise TypeError, World (db w) (S (ticks w))).
Proof.
  intros Hd. unfold create_proposal, mbind, M_bind, utcnow, lift.
  by rewrite Hd.
Qed.

(** Up to the insert, for days that are representable. *)
Lemma create_proposal_inserts payload w d :
  days_open payload = Some d →
  representable (clock (ticks w)) d →
  create_proposal clock payload w
  = (row ← get_proposal_or_404 clock (p_id (new_proposal payload d w));
     t ← query (tally_votes (p_id (new_proposal payload d w)));
     mret (proposal_out row t))
      (World (add_proposal (new_proposal payload d w) (db w)) (S (ticks w))).
Proof.
  intros Hd [Hdays Hdate].
  unfold create_proposal. unfold mbind, M_bind at 1. unfold utcnow at 1.
  unfold mbind, M_bind at 1. unfold lift at 1. rewrite Hd. cbn [timedelta].
  rewrite decide_True by done.
  unfold mbind, M_bind at 1. unfold lift at 1. unfold datetime_add.
  rewrite decide_True by done.
  unfold mbind, M_bind at 1. unfold insert_proposal at 1.
  reflexivity.
Qed.

Lemma create_proposal_active payload w d :
  days_open payload = Some d →
  representable (clock (ticks w)) d →
  clock (S (ticks w)) ≤ clock (ticks w) + d * US_PER_DAY →
  create_proposal clock payload w
  = (Return (proposal_out (new_proposal payload d w)
               (tally_votes (p_id (new_proposal payload d w)) (db w))),
     World (add_proposal (new_proposal payload d w) (db w))
           (S (S (ticks w)))).
Proof.
  intros Hd Hrep Hnow. rewrite (create_proposal_inserts _ _ d) by done.
  unfold mbind, M_bind at 1.
  rewrite (resolve_in_time clock _ (new_proposal payload d w));
    [done|by apply select_proposal_added|done|done].
Qed.

Lemma create_proposal_expired payload w d :
  days_open payload = Some d →
  representable (clock (ticks w)) d →
  clock (S (ticks w)) > clock (ticks w) + d * US_PER_DAY →
  create_proposal clock payload w
  = (Return (proposal_out (set_status expired (new_proposal payload d w))
               (tally_votes (p_id (new_proposal payload d w)) (db w))),
     World (update_status expired (p_id (new_proposal payload d w))
              (add_proposal (new_proposal payload d w) (db w)))
           (S (S (ticks w)))).
Proof.
  intros Hd Hrep Hnow. rewrite (create_proposal_inserts _ _ d) by done.
  unfold mbind, M_bind at 1.
  rewrite (resolve_expire clock _ (new_proposal payload d w));
    [done|by apply select_proposal_added|done|done].
Qed.

(** The status the new proposal is stored and returned with. *)
Definition created_status (d : Z) w : ProposalStatus :=
  if decide (clock (S (ticks w)) > clock (ticks w) + d * US_PER_DAY)
  then expired else active.

Lemma create_proposal_created payload w d :
  days_open payload = Some d →
  representable (clock (ticks w)) d →
  ∃ w1,
    create_proposal clock payload w
    = (Return (proposal_out
                 (set_status (created_status d w) (new_proposal payload d w))
                 (tally_votes (p_id (new_proposal payload d w)) (db w))),
       w1)
    ∧ ticks w1 = S (S (ticks w))
    ∧ votes (db w1) = votes (db w)
    ∧ fetchone (select_proposal (p_id (new_proposal payload d w)) (db w1))
      = Some (set_status (created_status d w) (new_proposal payload d w)).
Proof.
  intros Hd Hrep. unfold created_status.
  destruct (decide _) as [Hnow|Hnow]; eexists.
  - rewrite (create_proposal_expired _ _ d) by done.
    split_and!; [done..|]. cbn [db].
    by rewrite select_update_same, select_proposal_added.
  - rewrite (create_proposal_active _ _ d) by (done || lia).
    split_and!; [done..|]. cbn [db].
    by rewrite select_proposal_added.
Qed.

Lemma validate_ProposalCreate_fails body :
  validate_ProposalCreate body = Raise RequestValidationError
  ↔ body_title body = "" ∨ body_description body = "".
Proof.
  unfold validate_ProposalCreate.
  destruct (body_title body) as [|a ttl], (body_description body) as [|b de];
    simpl; repeat (destruct (decide _) as [Hlen|Hlen]; try lia);
    split; (done || auto || (intros [Hnil|Hnil]; discriminate Hnil)).
Qed.

(** C7, amended. [POST /proposals/] fails with a validation error exactly
    when the title or the description is empty; the number of days is not
    validated, so that zero and negative numbers are accepted. The days
    default to 2 when the body does not give them. For every number of
    days that [timedelta] and the date range can represent, the request
    succeeds: the new proposal is stored and returned with created-at the
    instant read first, deadline that instant plus the days, and status
    active unless the instant read after the insert is already past the
    deadline, in which case it is expired. The deadline is at or after
    created-at exactly when the days are not negative. *)
Theorem create_proposal_contract body w :
  (validate_ProposalCreate body = Raise RequestValidationError
   ↔ body_title body = "" ∨ body_description body = "")
  ∧ (∀ payload, validate_ProposalCreate body = Return payload →
       title payload = body_title body
       ∧ description payload = body_description body
       ∧ (body_days_open body = Absent → days_open payload = Some 2))
  ∧ (∀ payload d,
       validate_ProposalCreate body = Return payload →
       days_open payload = Some d →
       representable (clock (ticks w)) d →
       ∃ out w1 row,
         handle clock (POST_proposals body) w
         = (Return (Proposal_response out), w1)
         ∧ fetchone (select_proposal (out_id out) (db w1)) = Some row
         ∧ out = proposal_out row (tally_votes (out_id out) (db w))
         ∧ p_title row = body_title body
         ∧ p_description row = body_description body
         ∧ p_created_at row = clock (ticks w)
         ∧ p_deadline row = clock (ticks w) + d * US_PER_DAY
         ∧ p_status row
           = (if decide (clock (S (ticks w)) > p_deadline row)
              then expired else active)
         ∧ (p_created_at row ≤ p_deadline row ↔ 0 ≤ d)).
Proof.
  split_and!; [apply validate_ProposalCreate_fails| |].
  - unfold validate_ProposalCreate. intros payload Hval.
    repeat case_decide; try done. injection Hval as <-. simpl.
    split_and!; [done..|]. by intros ->.
  - intros payload d Hval Hd Hrep.
    assert (title payload = body_title body
            ∧ description payload = body_description body) as [Httl Hdescr].
    { unfold validate_ProposalCreate in Hval.
      repeat case_decide; try done. by injection Hval as <-. }
    destruct (create_proposal_created payload w d Hd Hrep)
      as (w1 & Hcreate & _ & _ & Hrow).
    eexists _, w1, _. split_and!.
    + unfold handle, mbind, M_bind at 1. unfold lift at 1. rewrite Hval.
      unfold mbind, M_bind. rewrite Hcreate. reflexivity.
    + exact Hrow.
    + reflexivity.
    + done.
    + done.
    + reflexivity.
    + reflexivity.
    + reflexivity.
    + simpl. unfold US_PER_DAY. lia.
Qed.

End Create.

Lemma create_proposal_contract_witness :
  let body := {| body_title := "Park"; body_description := "Build a park";
                 body_days_open := Absent |} in
  ∃ out w1 row,
    handle sample_clock (POST_proposals body) (World empty_store 0)
    = (Return (Proposal_response out), w1)
    ∧ fetchone (select_proposal (out_id out) (db w1)) = Some row
    ∧ p_deadline row = sample_clock 0 + 2 * US_PER_DAY
    ∧ p_status row = active.
Proof.
  intros body.
  destruct (create_proposal_contract sample_clock body (World empty_store 0))
    as (_ & _ & Hcreate).
  destruct (Hcreate {| title := "Park"; description := "Build a park";
                       days_open := Some 2 |} 2)
    as (out & w1 & row & Hres & Hrow & _ & _ & _ & _ & Hdl & Hst & _);
    [reflexivity|reflexivity|vm_compute; intuition discriminate|].
  exists out, w1, row. split_and!; [exact Hres|exact Hrow|exact Hdl|].
  rewrite Hst, Hdl. reflexivity.
Defined.

(** C7 as stated fails: a request for minus one day passes validation and
    succeeds; the proposal it creates has its deadline one day before
    created-at and is returned as expired. *)
Lemma negative_days_accepted :
  let body := {| body_title := "Park"; body_description := "Build a park";
                 body_days_open := Int (-1) |} in
  ∃ out,
    (handle sample_clock (POST_proposals body) (World empty_store 0)).1
    = Return (Proposal_response out)
    ∧ out_deadline out < out_created_at out
    ∧ out_status out = expired.
Proof. eexists. split_and!; reflexivity. Qed.

(** ** Votes after the end of a proposal *)

(** The votes stored for a proposal. *)
Definition votes_of (pid : Z) (s : store) : list vote_row :=
  filter (λ v, v_proposal_id v = pid) (votes s).

Section Ended.

Variable clock : nat → Z.
Implicit Types (w : world) (s : store) (v : vote_row) (row : proposal_row).

(** The proposal is stored and is closed, expired, or past its deadline at
    the next clock read. *)
Definition ended (pid : Z) w : Prop :=
  ∃ row, fetchone (select_proposal pid (db w)) = Some row
         ∧ (p_status row ≠ active ∨ clock (ticks w) > p_deadline row).

Lemma effective_status_ended pid w st :
  effective_status clock pid w = Some st → st ≠ active → ended pid w.
Proof.
  unfold effective_status, ended.
  destruct (get_proposal_or_404_resolved clock pid w) as [| |row|row|row];
    cbn [fst]; intros [= <-] Hst; [| |exists row; auto].
  - exists row. auto.
  - done.
Qed.

Lemma effective_status_resolves pid w st :
  effective_status clock pid w = Some st →
  ∃ row w1, get_proposal_or_404 clock pid w = (Return row, w1)
            ∧ p_status row = st
            ∧ votes (db w1) = votes (db w).
Proof.
  unfold effective_status. pose proof (resolve_votes clock pid w) as Hvotes.
  destruct (get_proposal_or_404 clock pid w) as [[row|e] w1]; [|done].
  intros [= <-]. by exists row, w1.
Qed.

Lemma effect_ticks w w' : effect clock w w' → (ticks w ≤ ticks w')%nat.
Proof. intros []; cbn [ticks]; lia. Qed.

Lemma filter_filter_keep {A : Type} (P Q : A → Prop)
    `{!∀ x, Decision (P x)} `{!∀ x, Decision (Q x)} (l : list A) :
  (∀ y, y ∈ l → P y → Q y) → filter P (filter Q l) = filter P l.
Proof.
  induction l as [|x l IH]; [done|]. intros Hall.
  assert (filter P (filter Q l) = filter P l) as IH'
    by (apply IH; intros y Hy; apply Hall; by right).
  rewrite (filter_cons Q). destruct (decide (Q x)) as [Hq|Hq].
  - rewrite !filter_cons. by rewrite IH'.
  - rewrite IH', filter_cons, decide_False; [done|].
    intros Hp. apply Hq, Hall; [left|done].
Qed.

Lemma tally_votes_of pid s s' :
  votes_of pid s' = votes_of pid s → tally_votes pid s' = tally_votes pid s.
Proof.
  unfold votes_of, tally_votes, select_vote_counts. by intros ->.
Qed.

Section Monotone_clock.

Hypothesis clock_mono : ∀ m n : nat, (m ≤ n)%nat → clock m ≤ clock n.

(** An ended proposal stays ended, and no write touches its votes. *)
Lemma effect_ended pid w w' :
  effect clock w w' →
  NoDup (v_id <$> votes (db w)) →
  ended pid w →
  ended pid w' ∧ votes_of pid (db w') = votes_of pid (db w).
Proof.
  intros Heff Hnd (row & Hrow & Hend). split.
  - destruct (effect_evolves clock _ _ Heff pid row Hrow) as (st' & Hrow' & Ht).
    exists (set_status st' row). split; [done|]. simpl.
    destruct Hend as [Hst|Hnow].
    + left. intros ->. by inversion Ht.
    + right. pose proof (clock_mono _ _ (effect_ticks _ _ Heff)). lia.
  - destruct Heff as [ | | | |s t pid0 row0 name choice Hrow0 Hst0 Hnow0
                      |s t vid v row0 Hv Hrow0 Hst0 Hnow0];
      cbn [db ticks] in *; try done.
    + unfold votes_of, add_vote; simpl. rewrite filter_app, filter_cons.
      cbn [v_proposal_id]. rewrite decide_False; [by rewrite app_nil_r|].
      intros ->. replace row0 with row in * by congruence.
      destruct Hend; [done|lia].
    + unfold votes_of, delete_vote; simpl. apply filter_filter_keep.
      intros y Hy Hpid Hid. destruct (fetched_vote _ _ _ Hv) as [Hvin Hvid].
      assert (y = v) as ->
        by (apply (NoDup_fmap_elem_eq v_id (votes s)); congruence).
      rewrite Hpid in Hrow0. replace row0 with row in * by congruence.
      destruct Hend; [done|lia].
Qed.

Lemma effects_ended pid w w' :
  rtc (effect clock) w w' →
  ids_unique (db w) →
  ended pid w →
  votes_of pid (db w') = votes_of pid (db w).
Proof.
  induction 1 as [|w1 w2 w3 Hstep _ IH]; [done|]. intros Hids Hend.
  destruct (effect_ended pid _ _ Hstep (proj2 Hids) Hend) as [Hend' Hvotes].
  rewrite IH; [done| |done]. by eapply effect_ids_unique.
Qed.

End Monotone_clock.

Lemma create_proposal_unrepresentable payload w d :
  days_open payload = Some d →
  ¬ representable (clock (ticks w)) d →
  (create_proposal clock payload w).1 = Raise OverflowError.
Proof.
  intros Hd Hrep. unfold create_proposal, mbind, M_bind, utcnow, lift.
  rewrite Hd. cbn [timedelta ticks].
  destruct (decide (- MAX_DELTA_DAYS ≤ d ≤ MAX_DELTA_DAYS)); [|done].
  unfold datetime_add. destruct (decide _) as [Hdate|]; [|done].
  by destruct Hrep.
Qed.

(** C6. When the effective status of a proposal is closed or expired, a
    cast on it and a revoke of one of its votes fail with InvalidState and
    the stored votes are as they were. With a clock that does not run
    backwards, no sequence of requests then changes the votes, and so the
    tally, of that proposal. A proposal created for 0 days rejects, with
    InvalidState, every cast made at an instant after its creation. *)
Theorem votes_frozen_after_end :
  (∀ pid payload w st,
     effective_status clock pid w = Some st → st ≠ active →
     ∃ w1, submit_vote clock pid payload w = (Raise InvalidState_vote, w1)
           ∧ votes (db w1) = votes (db w))
  ∧ (∀ vid v w st,
       fetchone (select_vote vid (db w)) = Some v →
       effective_status clock (v_proposal_id v) w = Some st → st ≠ active →
       ∃ w1, revoke_vote clock vid w = (Raise InvalidState_revoke, w1)
             ∧ votes (db w1) = votes (db w))
  ∧ (∀ pid w st rs,
       (∀ m n : nat, (m ≤ n)%nat → clock m ≤ clock n) →
       ids_unique (db w) →
       effective_status clock pid w = Some st → st ≠ active →
       votes_of pid (db (run clock rs w)) = votes_of pid (db w)
       ∧ tally_votes pid (db (run clock rs w)) = tally_votes pid (db w))
  ∧ (∀ body w out w1 payload t,
       body_days_open body = Int 0 →
       handle clock (POST_proposals body) w
       = (Return (Proposal_response out), w1) →
       clock (ticks w) < clock t →
       (submit_vote clock (out_id out) payload (World (db w1) t)).1
       = Raise InvalidState_vote).
Proof.
  split_and!.
  - intros pid payload w st Heff Hst.
    destruct (effective_status_resolves _ _ _ Heff)
      as (row & w1 & Hget & <- & Hvotes).
    exists w1. split; [|done]. by apply (submit_vote_not_active _ _ _ _ row).
  - intros vid v w st Hv Heff Hst.
    destruct (effective_status_resolves _ _ _ Heff)
      as (row & w1 & Hget & <- & Hvotes).
    exists w1. split; [|done].
    by apply (revoke_vote_not_active _ _ v _ row).
  - intros pid w st rs Hmono Hids Heff Hst.
    assert (votes_of pid (db (run clock rs w)) = votes_of pid (db w)) as Hsame.
    { apply effects_ended; [done|apply effects_run|done|].
      by eapply effective_status_ended. }
    split; [done|]. by apply tally_votes_of.
  - intros body w out w1 payload t Hzero Hres Hlater.
    unfold handle, mbind, M_bind at 1 in Hres. unfold lift at 1 in Hres.
    destruct (validate_ProposalCreate body) as [p|e] eqn:Hval; [|done].
    assert (days_open p = Some 0) as Hd.
    { unfold validate_ProposalCreate in Hval.
      repeat (destruct (decide _); [|done]).
      injection Hval as <-. simpl. by rewrite Hzero. }
    unfold mbind, M_bind in Hres.
    destruct (decide (representable (clock (ticks w)) 0)) as [Hrep|Hrep];
      [|by rewrite (surjective_pairing (create_proposal clock p w)),
           (create_proposal_unrepresentable _ _ 0) in Hres].
    destruct (create_proposal_created clock p w 0 Hd Hrep)
      as (w1' & Hcreate & _ & _ & Hrow).
    rewrite Hcreate in Hres. injection Hres as <- <-.
    cbn [out_id proposal_out] in *.
    set (row := set_status (created_status clock 0 w)
                  (new_proposal clock p 0 w)) in *.
    set (w2 := World (db w1') t).
    destruct (decide (p_status row = active)) as [Hst|Hst].
    + assert (clock t > p_deadline row) as Hnow by (simpl; lia).
      pose proof (resolve_expire clock _ row w2 Hrow Hst Hnow) as Hget.
      by rewrite (submit_vote_not_active _ _ _ _ _ _ Hget).
    + pose proof (resolve_settled clock _ row w2 Hrow Hst) as Hget.
      by rewrite (submit_vote_not_active _ _ _ _ _ _ Hget).
Qed.

End Ended.

Lemma votes_frozen_after_end_witness :
  (∃ w1, submit_vote sample_clock 1 {| voter_name := "Bob"; vote := "yes" |}
           (World (sample_store closed) 0) = (Raise InvalidState_vote, w1)
         ∧ votes (db w1) = [])
  ∧ (submit_vote sample_clock 1 {| voter_name := "Bob"; vote := "yes" |}
       (World (Store [sample_zero_days] 1 [] 0) 2)).1
    = Raise InvalidState_vote.
Proof.
  destruct (votes_frozen_after_end sample_clock)
    as (Hcast & _ & _ & Hzero).
  split.
  - apply (Hcast 1 _ (World (sample_store closed) 0) closed);
      [reflexivity|discriminate].
  - apply (Hzero {| body_title := "Park";
                    body_description := "Build a park";
                    body_days_open := Int 0 |}
             (World empty_store 0)
             (proposal_out sample_zero_days (0, 0, 0))
             (World (Store [sample_zero_days] 1 [] 0) 2)
             {| voter_name := "Bob"; vote := "yes" |} 2%nat);
      [reflexivity|reflexivity|reflexivity].
Defined.

(** ** No proposal is reported active past its deadline *)

Section Reports.

Variable clock : nat → Z.
Implicit Types (w : world) (s : store) (row : proposal_row).

(** A resolved row that is still active was in time at the read, which is
    the one clock read of the resolution. *)
Lemma resolved_row_in_time pid w row w1 :
  get_proposal_or_404 clock pid w = (Return row, w1) →
  (p_status row = active → clock (ticks w) ≤ p_deadline row)
  ∧ (ticks w ≤ ticks w1)%nat.
Proof.
  intros Hget. pose proof (get_proposal_or_404_resolved clock pid w) as Hres.
  rewrite Hget in Hres. inversion Hres; subst; cbn [ticks]; split;
    (done || lia).
Qed.

Lemma get_proposals_item_in_time pid w out w1 :
  get_proposals_item clock pid w = (Return out, w1) →
  (out_status out = active → clock (ticks w) ≤ out_deadline out)
  ∧ (ticks w ≤ ticks w1)%nat.
Proof.
  unfold get_proposals_item, mbind, M_bind, query, mret, M_ret.
  destruct (get_proposal_or_404 clock pid w) as [[row|e] w'] eqn:Hget;
    [|done].
  intros [= <- <-]. by apply (resolved_row_in_time pid).
Qed.



End Reports.


(** * Further properties of the handlers *)

(** ** What a cast and a revoke do to the ledger *)

(** [k] more votes for [choice] in a tally; a text that is none of the
    three choices is not counted. *)
Definition tally_add (choice : string) (k : Z) (t : Z * Z * Z) : Z * Z * Z :=
  if decide (choice = "yes") then (t.1.1 + k, t.1.2, t.2)
  else if decide (choice = "no") then (t.1.1, t.1.2 + k, t.2)
  else if decide (choice = "abstain") then (t.1.1, t.1.2, t.2 + k)
  else t.

Section Cast_and_revoke.

Variable clock : nat → Z.
Implicit Types (w : world) (s : store) (v : vote_row) (row : proposal_row).

(** What a successful [submit_vote] has checked and done. *)
Lemma submit_vote_success pid payload w out w1 :
  submit_vote clock pid payload w = (Return out, w1) →
  ∃ row,
    fetchone (select_proposal pid (db w)) = Some row
    ∧ p_status row = active
    ∧ clock (ticks w) ≤ p_deadline row
    ∧ select_vote_of pid (voter_name payload) (db w) = []
    ∧ vote payload ∈ choices
    ∧ out = vote_out (new_vote clock pid payload (World (db w) (S (ticks w))))
    ∧ w1 = World (add_vote
                    (new_vote clock pid payload (World (db w) (S (ticks w))))
                    (db w))
                 (S (S (ticks w))).
Proof.
  intros Hcast.
  destruct (get_proposal_or_404 clock pid w) as [[row|e] w'] eqn:Hget;
    [|by rewrite (submit_vote_unresolved _ _ _ _ _ _ Hget) in Hcast].
  destruct (decide (p_status row = active)) as [Hst|Hst];
    [|by rewrite (submit_vote_not_active _ _ _ _ _ _ Hget Hst) in Hcast].
  destruct (decide (select_vote_of pid (voter_name payload) (db w') = []))
    as [Hnone|Hsome];
    [|by rewrite (submit_vote_conflict _ _ _ _ _ _ Hget Hst Hsome) in Hcast].
  destruct (decide (vote payload ∈ choices)) as [Hc|Hc];
    [|by rewrite (submit_vote_rejected _ _ _ _ _ _ Hget Hst Hnone Hc)
        in Hcast].
  rewrite (submit_vote_insert _ _ _ _ _ _ Hget Hst Hnone Hc) in Hcast.
  destruct (resolved_active_in_time _ _ _ _ _ Hget Hst) as (Hrow & Hnow & ->).
  cbn [db ticks] in *. injection Hcast as <- <-.
  exists row. done.
Qed.

Lemma tally_votes_counts pid s :
  tally_votes pid s
  = (count_votes pid "yes" s, count_votes pid "no" s,
     count_votes pid "abstain" s).
Proof. unfold tally_votes. by rewrite !tally_entry. Qed.

Lemma count_votes_add_vote pid c v s :
  count_votes pid c (add_vote v s)
  = count_votes pid c s
    + (if decide (v_proposal_id v = pid ∧ v_vote v = c) then 1 else 0).
Proof.
  unfold count_votes, add_vote; simpl.
  rewrite filter_app, length_app.
  destruct (decide (v_proposal_id v = pid ∧ v_vote v = c)) as [Hv|Hv].
  - rewrite filter_cons_True by done. simpl.
    rewrite Nat2Z.inj_add. reflexivity.
  - rewrite filter_cons_False by done. simpl.
    rewrite Nat.add_0_r, Z.add_0_r. reflexivity.
Qed.

Lemma tally_votes_add_vote pid v s :
  tally_votes pid (add_vote v s)
  = if decide (v_proposal_id v = pid)
    then tally_add (v_vote v) 1 (tally_votes pid s)
    else tally_votes pid s.
Proof.
  rewrite !tally_votes_counts, !count_votes_add_vote. unfold tally_add.
  destruct (decide (v_proposal_id v = pid)) as [Hp|Hp].
  - destruct (decide (v_vote v = "yes")) as [Hy|Hy];
      [|destruct (decide (v_vote v = "no")) as [Hn|Hn];
        [|destruct (decide (v_vote v = "abstain")) as [Ha|Ha]]];
      repeat (destruct (decide (_ ∧ _)) as [[? ?]|?]);
      first [ by (exfalso; intuition congruence)
            | simpl; rewrite ?Z.add_0_r; reflexivity ].
  - repeat (destruct (decide (_ ∧ _)) as [[? ?]|?]; [done|]).
    by rewrite !Z.add_0_r.
Qed.

End Cast_and_revoke.

Section Ledger_changes.

Variable clock : nat → Z.
Implicit Types (w : world) (s : store) (v : vote_row) (row : proposal_row).

Lemma length_filter_without (P : vote_row → Prop) `{!∀ x, Decision (P x)}
    vid v (l : list vote_row) :
  NoDup (v_id <$> l) → v ∈ l → v_id v = vid →
  Z.of_nat (length (filter P (filter (λ v, v_id v ≠ vid) l)))
  = Z.of_nat (length (filter P l)) - (if decide (P v) then 1 else 0).
Proof.
  induction l as [|x l IH]; [by intros _ ?%elem_of_nil|].
  rewrite fmap_cons, NoDup_cons, elem_of_cons.
  intros [Hx Hl] [->|Hin] Hid.
  - rewrite (filter_cons_False (λ v, v_id v ≠ vid)) by (by intros []).
    rewrite (filter_keeps_all (λ v, v_id v ≠ vid)).
    + rewrite (filter_cons P). destruct (decide (P x)); simpl length; lia.
    + intros y Hy Heq. apply Hx. rewrite Hid, <- Heq.
      by apply list_elem_of_fmap_2.
  - assert (v_id x ≠ vid) as Hne.
    { intros Heq. apply Hx. rewrite Heq, <- Hid.
      by apply list_elem_of_fmap_2. }
    rewrite (filter_cons_True (λ v, v_id v ≠ vid)) by done.
    rewrite !(filter_cons P).
    destruct (decide (P x)); simpl length; rewrite ?Nat2Z.inj_succ;
      rewrite (IH Hl Hin Hid); lia.
Qed.

Lemma count_votes_delete_vote pid c vid v s :
  NoDup (v_id <$> votes s) → v ∈ votes s → v_id v = vid →
  count_votes pid c (delete_vote vid s)
  = count_votes pid c s
    - (if decide (v_proposal_id v = pid ∧ v_vote v = c) then 1 else 0).
Proof.
  intros Hnd Hin Hid. unfold count_votes, delete_vote; simpl.
  by rewrite (length_filter_without _ vid v).
Qed.

Lemma tally_votes_delete_vote pid vid v s :
  NoDup (v_id <$> votes s) → v ∈ votes s → v_id v = vid →
  tally_votes pid (delete_vote vid s)
  = if decide (v_proposal_id v = pid)
    then tally_add (v_vote v) (-1) (tally_votes pid s)
    else tally_votes pid s.
Proof.
  intros Hnd Hin Hid.
  rewrite !tally_votes_counts, !(count_votes_delete_vote _ _ vid v) by done.
  unfold tally_add.
  destruct (decide (v_proposal_id v = pid)) as [Hp|Hp].
  - destruct (decide (v_vote v = "yes")) as [Hy|Hy];
      [|destruct (decide (v_vote v = "no")) as [Hn|Hn];
        [|destruct (decide (v_vote v = "abstain")) as [Ha|Ha]]];
      repeat (destruct (decide (_ ∧ _)) as [[? ?]|?]);
      first [ by (exfalso; intuition congruence)
            | simpl; rewrite ?Z.sub_0_r; reflexivity ].
  - repeat (destruct (decide (_ ∧ _)) as [[? ?]|?]; [done|]).
    by rewrite !Z.sub_0_r.
Qed.

(** X1. A cast that succeeds returns the vote it has stored: the pair and
    the choice are those of the request, the choice is one of yes, no and
    abstain, the id is above the id of every vote in the table, and the
    time is the clock read that follows the resolution. The row is
    appended to the table of votes and read back under its id; the table
    of proposals and its counter are as they were. *)
Theorem cast_stores_vote pid payload w out w1 :
  submit_vote clock pid payload w = (Return out, w1) →
  vout_proposal_id out = pid
  ∧ vout_voter_name out = voter_name payload
  ∧ vout_vote out = vote payload
  ∧ vote payload ∈ choices
  ∧ vout_voted_at out = clock (S (ticks w))
  ∧ (∀ v, v ∈ votes (db w) → v_id v < vout_id out)
  ∧ (∃ v, vote_out v = out
          ∧ votes (db w1) = (votes (db w) ++ [v])%list
          ∧ fetchone (select_vote (vout_id out) (db w1)) = Some v)
  ∧ proposals (db w1) = proposals (db w)
  ∧ proposals_seq (db w1) = proposals_seq (db w)
  ∧ votes_seq (db w1) = vout_id out.
Proof.
  intros Hcast.
  destruct (submit_vote_success _ _ _ _ _ _ Hcast)
    as (row & Hrow & Hst & Hnow & Hnone & Hc & -> & ->).
  cbn [db]. split_and!; try done.
  - intros v Hv. simpl. apply next_rowid_fresh. by apply list_elem_of_fmap_2.
  - eexists. split_and!; [reflexivity|reflexivity|].
    by apply (select_vote_added (new_vote clock pid payload _)).
Qed.

(** X2. A cast that succeeds adds one to the tally of its proposal under
    its choice and changes no other count: the tally of every other
    proposal is as it was. *)
Theorem cast_adds_to_tally pid payload w out w1 :
  submit_vote clock pid payload w = (Return out, w1) →
  tally_votes pid (db w1)
  = tally_add (vote payload) 1 (tally_votes pid (db w))
  ∧ ∀ pid', pid' ≠ pid → tally_votes pid' (db w1) = tally_votes pid' (db w).
Proof.
  intros Hcast.
  destruct (submit_vote_success _ _ _ _ _ _ Hcast)
    as (row & _ & _ & _ & _ & _ & _ & ->).
  cbn [db]. split.
  - rewrite tally_votes_add_vote. by rewrite decide_True.
  - intros pid' Hne. rewrite tally_votes_add_vote.
    by rewrite decide_False by (simpl; congruence).
Qed.

(** X3. In a store whose vote ids are a key, a revoke that succeeds takes
    one from the tally of the vote's proposal under the vote's choice and
    changes no other count. *)
Theorem revoke_takes_from_tally vid v w w1 :
  NoDup (v_id <$> votes (db w)) →
  fetchone (select_vote vid (db w)) = Some v →
  revoke_vote clock vid w = (Return tt, w1) →
  tally_votes (v_proposal_id v) (db w1)
  = tally_add (v_vote v) (-1) (tally_votes (v_proposal_id v) (db w))
  ∧ ∀ pid', pid' ≠ v_proposal_id v →
            tally_votes pid' (db w1) = tally_votes pid' (db w).
Proof.
  intros Hnd Hv Hrev.
  destruct (revoke_vote_success _ _ _ _ Hrev) as (v' & row & Hv' & _ & _ & _ & ->).
  destruct (fetched_vote _ _ _ Hv) as [Hin Hid].
  cbn [db]. split.
  - rewrite (tally_votes_delete_vote _ vid v) by done.
    by rewrite decide_True.
  - intros pid' Hne. rewrite (tally_votes_delete_vote _ vid v) by done.
    by rewrite decide_False by congruence.
Qed.

(** X4. A vote that was just cast can be revoked while the deadline of its
    proposal has not passed: the table of votes is then again what it was
    before the cast. Only the counter of the table remembers the id, and
    the next vote that is cast gets the id that follows: an id is never
    given twice. *)
Theorem cast_then_revoke pid payload w out w1 row (t : nat) :
  submit_vote clock pid payload w = (Return out, w1) →
  fetchone (select_proposal pid (db w)) = Some row →
  clock t ≤ p_deadline row →
  ∃ w2,
    revoke_vote clock (vout_id out) (World (db w1) t) = (Return tt, w2)
    ∧ votes (db w2) = votes (db w)
    ∧ proposals (db w2) = proposals (db w)
    ∧ votes_seq (db w2) = vout_id out
    ∧ ∀ pid' payload' (t' : nat) out' w3,
        submit_vote clock pid' payload' (World (db w2) t') = (Return out', w3) →
        vout_id out' = vout_id out + 1.
Proof.
  intros Hcast Hrow Hnow.
  destruct (submit_vote_success _ _ _ _ _ _ Hcast)
    as (row' & Hrow' & Hst & _ & _ & _ & -> & ->).
  replace row' with row in * by congruence. clear Hrow'.
  set (v := new_vote clock pid payload (World (db w) (S (ticks w)))).
  set (w1 := World (add_vote v (db w)) t).
  assert (fetchone (select_vote (v_id v) (db w1)) = Some v) as Hv
    by (by apply select_vote_added).
  assert (get_proposal_or_404 clock (v_proposal_id v) w1
          = (Return row, World (db w1) (S (ticks w1)))) as Hget
    by (by apply resolve_in_time).
  assert (filter (λ v0, v_id v0 ≠ v_id v) (votes (db w)) = votes (db w))
    as Hkeep.
  { apply filter_keeps_all. intros y Hy Heq.
    apply (next_rowid_not_elem (votes_seq (db w)) (v_id <$> votes (db w))).
    change (v_id v ∈ v_id <$> votes (db w)). rewrite <- Heq.
    by apply list_elem_of_fmap_2. }
  eexists. split_and!.
  - apply (revoke_vote_delete clock _ v w1 row); done.
  - cbn [db delete_vote votes add_vote w1].
    change (vout_id (vote_out v)) with (v_id v).
    rewrite filter_app, Hkeep, filter_cons_False by (by intros []).
    by rewrite filter_nil, app_nil_r.
  - reflexivity.
  - reflexivity.
  - intros pid' payload' t' out' w3 Hcast'.
    destruct (submit_vote_success _ _ _ _ _ _ Hcast')
      as (_ & _ & _ & _ & _ & _ & -> & _).
    change (vout_id (vote_out v)) with (v_id v).
    unfold vote_out at 1. cbn [vout_id]. unfold new_vote at 1.
    cbn [v_id db ticks votes votes_seq delete_vote add_vote w1].
    rewrite filter_app, Hkeep, filter_cons_False by (by intros []).
    rewrite filter_nil, app_nil_r.
    subst v. unfold new_vote. cbn [v_id db]. unfold next_rowid.
    pose proof (foldr_max_ge (votes_seq (db w)) (v_id <$> votes (db w))).
    assert (∀ (a : Z) (l : list Z), (∀ i, i ∈ l → i ≤ a) → foldr Z.max a l = a)
      as Hmax.
    { intros a l. induction l as [|i l IH]; [done|]. intros Hall. simpl.
      rewrite IH by (intros j Hj; apply Hall; by right).
      specialize (Hall i (ltac:(left))). lia. }
    rewrite (Hmax (1 + _)); [lia|].
    intros i Hi. pose proof (foldr_max_elem (votes_seq (db w)) _ _ Hi). lia.
Qed.

(** X5. [GET /votes/] returns the votes of the table in rowid order and
    leaves the world as it is; after a cast that succeeds, it returns the
    list it returned before followed by the vote the cast has returned. *)
Theorem list_votes_after_cast pid payload w out w1 :
  submit_vote clock pid payload w = (Return out, w1) →
  list_votes w = (Return (vote_out <$> votes (db w)), w)
  ∧ list_votes w1 = (Return ((vote_out <$> votes (db w)) ++ [out])%list, w1).
Proof.
  intros Hcast.
  destruct (submit_vote_success _ _ _ _ _ _ Hcast)
    as (row & _ & _ & _ & _ & _ & -> & ->).
  split; [done|].
  unfold list_votes, mbind, M_bind, query, select_votes, mret, M_ret.
  cbn [db add_vote votes]. by rewrite fmap_app.
Qed.

End Ledger_changes.

(** Bob votes no on proposal 1 of [sample_ballots], at the first instant of
    [sample_clock]: his vote is stamped with the second read. *)
Definition sample_cast : VoteCreate := {| voter_name := "Bob"; vote := "no" |}.

Definition sample_bob : vote_row :=
  VoteRow 2 1 "Bob" "no" (739252 * US_PER_DAY).

Lemma sample_cast_succeeds :
  submit_vote sample_clock 1 sample_cast (World sample_ballots 0)
  = (Return (vote_out sample_bob),
     World (add_vote sample_bob sample_ballots) 2).
Proof. reflexivity. Qed.

Lemma cast_stores_vote_witness :
  vout_voted_at (vote_out sample_bob) = sample_clock 1
  ∧ (∀ v, v ∈ votes sample_ballots → v_id v < 2)
  ∧ votes_seq (add_vote sample_bob sample_ballots) = 2.
Proof.
  destruct (cast_stores_vote sample_clock 1 sample_cast
              (World sample_ballots 0) (vote_out sample_bob)
              (World (add_vote sample_bob sample_ballots) 2)
              sample_cast_succeeds)
    as (_ & _ & _ & _ & Hat & Hfresh & _ & _ & _ & Hseq).
  split_and!; [exact Hat|exact Hfresh|exact Hseq].
Defined.

Lemma cast_adds_to_tally_witness :
  tally_votes 1 (add_vote sample_bob sample_ballots)
  = tally_add "no" 1 (tally_votes 1 sample_ballots).
Proof.
  destruct (cast_adds_to_tally sample_clock 1 sample_cast
              (World sample_ballots 0) (vote_out sample_bob)
              (World (add_vote sample_bob sample_ballots) 2)
              sample_cast_succeeds) as [Htally _].
  exact Htally.
Defined.

Lemma revoke_takes_from_tally_witness :
  tally_votes 1 (delete_vote 1 sample_ballots)
  = tally_add "yes" (-1) (tally_votes 1 sample_ballots).
Proof.
  destruct (revoke_takes_from_tally sample_clock 1
              (VoteRow 1 1 "Alice" "yes" (739251 * US_PER_DAY))
              (World sample_ballots 0)
              (World (delete_vote 1 sample_ballots) 1)) as [Htally _];
    [apply NoDup_singleton|reflexivity|reflexivity|exact Htally].
Defined.

Lemma cast_then_revoke_witness :
  ∃ w2,
    revoke_vote sample_clock 2 (World (add_vote sample_bob sample_ballots) 2)
    = (Return tt, w2)
    ∧ votes (db w2) = votes sample_ballots
    ∧ votes_seq (db w2) = 2.
Proof.
  destruct (cast_then_revoke sample_clock 1 sample_cast
              (World sample_ballots 0) (vote_out sample_bob)
              (World (add_vote sample_bob sample_ballots) 2)
              (sample_proposal active) 2 sample_cast_succeeds)
    as (w2 & Hrev & Hvotes & _ & Hseq & _);
    [reflexivity|vm_compute; discriminate|].
  exists w2. split_and!; [exact Hrev|exact Hvotes|exact Hseq].
Defined.

Lemma list_votes_after_cast_witness :
  list_votes (World (add_vote sample_bob sample_ballots) 2)
  = (Return ((vote_out <$> votes sample_ballots) ++ [vote_out sample_bob])%list,
     World (add_vote sample_bob sample_ballots) 2).
Proof.
  destruct (list_votes_after_cast sample_clock 1 sample_cast
              (World sample_ballots 0) (vote_out sample_bob)
              (World (add_vote sample_bob sample_ballots) 2)
              sample_cast_succeeds) as [_ Hafter].
  exact Hafter.
Defined.

(** ** Requests that fail, and reads *)

Section Failures_and_reads.

Variable clock : nat → Z.
Implicit Types (w : world) (s : store) (v : vote_row) (row : proposal_row).

(** What a resolution leaves in the store: the row it returns is the row
    now stored, the votes and both counters are untouched, and so is every
    other proposal. *)
Lemma resolution_frame pid w row w1 :
  get_proposal_or_404 clock pid w = (Return row, w1) →
  fetchone (select_proposal pid (db w1)) = Some row
  ∧ votes (db w1) = votes (db w)
  ∧ votes_seq (db w1) = votes_seq (db w)
  ∧ proposals_seq (db w1) = proposals_seq (db w)
  ∧ p_id <$> proposals (db w1) = p_id <$> proposals (db w)
  ∧ ∀ pid', pid' ≠ pid →
            select_proposal pid' (db w1) = select_proposal pid' (db w).
Proof.
  intros Hget. pose proof (get_proposal_or_404_resolved clock pid w) as Hres.
  rewrite Hget in Hres. inversion Hres; subst; cbn [db]; try done.
  split_and!; try done.
  - rewrite select_update_same.
    by match goal with H : fetchone _ = Some _ |- _ => rewrite H end.
  - apply update_status_ids.
  - intros pid' Hne. by apply select_update_other.
Qed.

Lemma resolution_failure pid w e w1 :
  get_proposal_or_404 clock pid w = (Raise e, w1) →
  w1 = w
  ∧ fetchone (select_proposal pid (db w)) = None
  ∧ (e = NotFound_proposal ∧ int64 pid ∨ e = OverflowError ∧ ¬ int64 pid).
Proof.
  intros Hget. pose proof (get_proposal_or_404_resolved clock pid w) as Hres.
  rewrite Hget in Hres. inversion Hres; subst; split_and!; auto.
Qed.

(** X6. A cast that fails has stored no vote: the table of votes and its
    counter are as they were. When the proposal is not stored the world is
    untouched, and the cast fails with 404 for an id that fits in 64 bits
    and with an overflow error for an id that does not. Otherwise it fails
    with the not-active error when the proposal does not resolve to active,
    with the already-voted error when the voter has a vote on the proposal,
    and with an integrity error when the choice is none of yes, no and
    abstain; in that order. *)
Theorem cast_failure_stores_nothing pid payload w e w1 :
  submit_vote clock pid payload w = (Raise e, w1) →
  votes (db w1) = votes (db w)
  ∧ votes_seq (db w1) = votes_seq (db w)
  ∧ (e = NotFound_proposal ∧ int64 pid ∧ w1 = w
       ∧ fetchone (select_proposal pid (db w)) = None
     ∨ e = OverflowError ∧ ¬ int64 pid ∧ w1 = w
       ∧ fetchone (select_proposal pid (db w)) = None
     ∨ e = InvalidState_vote
       ∧ (∃ row, fetchone (select_proposal pid (db w1)) = Some row
                 ∧ p_status row ≠ active)
     ∨ e = Conflict
       ∧ effective_status clock pid w = Some active
       ∧ select_vote_of pid (voter_name payload) (db w) ≠ []
     ∨ e = IntegrityError
       ∧ effective_status clock pid w = Some active
       ∧ select_vote_of pid (voter_name payload) (db w) = []
       ∧ vote payload ∉ choices).
Proof.
  intros Hcast. unfold effective_status.
  destruct (get_proposal_or_404 clock pid w) as [[row|e'] w'] eqn:Hget.
  - destruct (resolution_frame _ _ _ _ Hget)
      as (Hrow & Hvotes & Hseq & _).
    assert (∀ name, select_vote_of pid name (db w')
                    = select_vote_of pid name (db w)) as Hsel
      by (intros name; by apply select_vote_of_votes).
    destruct (decide (p_status row = active)) as [Hst|Hst].
    + destruct (decide (select_vote_of pid (voter_name payload) (db w') = []))
        as [Hnone|Hsome].
      * destruct (decide (vote payload ∈ choices)) as [Hc|Hc];
          [by rewrite (submit_vote_insert _ _ _ _ _ _ Hget Hst Hnone Hc)
             in Hcast|].
        rewrite (submit_vote_rejected _ _ _ _ _ _ Hget Hst Hnone Hc) in Hcast.
        injection Hcast as <- <-. cbn [db fst].
        split_and!; [done..|]. do 4 right. rewrite <- Hsel, Hst. done.
      * rewrite (submit_vote_conflict _ _ _ _ _ _ Hget Hst Hsome) in Hcast.
        injection Hcast as <- <-. cbn [fst].
        split_and!; [done..|]. do 3 right; left.
        rewrite <- Hsel, Hst. done.
    + rewrite (submit_vote_not_active _ _ _ _ _ _ Hget Hst) in Hcast.
      injection Hcast as <- <-. split_and!; [done..|].
      do 2 right; left. split; [done|]. by exists row.
  - rewrite (submit_vote_unresolved _ _ _ _ _ _ Hget) in Hcast.
    injection Hcast as <- <-.
    destruct (resolution_failure _ _ _ _ Hget)
      as (-> & Hnone & [[-> Hid]|[-> Hid]]).
    + split_and!; [done..|]. by left.
    + split_and!; [done..|]. right; by left.
Qed.

(** X7. [GET /proposals/{id}] leaves the world untouched for an id that is
    not stored: it answers 404 when the id fits in 64 bits, and raises an
    overflow error when it does not. For a stored proposal it returns the
    columns of the row with the tally of its votes; the only write it can
    make is the expiry of that proposal, when the row is active and the
    instant read is past the deadline. Votes, counters and the rows of
    every other proposal are never changed by the read. *)
Theorem get_proposal_reads pid w :
  (fetchone (select_proposal pid (db w)) = None →
   get_proposal clock pid w
   = (Raise (if decide (int64 pid) then NotFound_proposal else OverflowError),
      w))
  ∧ (∀ row,
       fetchone (select_proposal pid (db w)) = Some row →
       ∃ st w1,
         get_proposal clock pid w
         = (Return (proposal_out (set_status st row)
                                 (tally_votes pid (db w))), w1)
         ∧ out_id (proposal_out (set_status st row)
                                (tally_votes pid (db w))) = pid
         ∧ (st = p_status row ∧ db w1 = db w
            ∨ p_status row = active ∧ clock (ticks w) > p_deadline row
              ∧ st = expired
              ∧ db w1 = update_status expired pid (db w))
         ∧ votes (db w1) = votes (db w)
         ∧ ∀ pid', pid' ≠ pid →
                   select_proposal pid' (db w1) = select_proposal pid' (db w)).
Proof.
  split.
  - intros Hrow. unfold get_proposal, mbind, M_bind.
    destruct (decide (int64 pid)) as [Hid|Hid].
    + by rewrite (resolve_missing _ _ _ Hrow Hid).
    + by rewrite (resolve_unbound _ _ _ Hrow Hid).
  - intros row Hrow. pose proof (fetchone_Some_id _ _ _ Hrow) as Hid.
    unfold get_proposal, mbind, M_bind, query, mret, M_ret.
    destruct (decide (p_status row = active)) as [Hst|Hst].
    + destruct (decide (clock (ticks w) > p_deadline row)) as [Hnow|Hnow].
      * rewrite (resolve_expire _ _ _ _ Hrow Hst Hnow). cbn [db].
        exists expired. eexists. split_and!; [reflexivity|done| |done|].
        -- right. done.
        -- intros pid' Hne. by apply select_update_other.
      * rewrite (resolve_in_time _ _ _ _ Hrow Hst) by lia. cbn [db].
        exists (p_status row). rewrite set_status_same.
        eexists. split_and!; [reflexivity|done| |done|done]. by left.
    + rewrite (resolve_settled _ _ _ _ Hrow Hst).
      exists (p_status row). rewrite set_status_same.
      eexists. split_and!; [reflexivity|done| |done|done]. by left.
Qed.

Lemma update_status_twice st pid s :
  update_status st pid (update_status st pid s) = update_status st pid s.
Proof.
  unfold update_status; simpl. f_equal. rewrite <- list_fmap_compose.
  apply list_fmap_ext. intros i r _. simpl.
  destruct (decide (p_id r = pid)) as [Heq|Hne]; simpl.
  - by rewrite decide_True.
  - by rewrite decide_False.
Qed.

(** X8. [close] with the admin token leaves the world untouched for an id
    that is not stored: it answers 404 when the id fits in 64 bits, and
    raises an overflow error when it does not. On a stored proposal it
    reads no clock, and closing again changes nothing: the second answer
    is the first one and the store is the store the first close has
    left. *)
Theorem close_twice pid w :
  (fetchone (select_proposal pid (db w)) = None →
   close_proposal clock pid (Some ADMIN_TOKEN) w
   = (Raise (if decide (int64 pid) then NotFound_proposal else OverflowError),
      w))
  ∧ (∀ row,
       fetchone (select_proposal pid (db w)) = Some row →
       ∃ out s1,
         close_proposal clock pid (Some ADMIN_TOKEN) w
         = (Return out, World s1 (ticks w))
         ∧ ∀ t : nat,
             close_proposal clock pid (Some ADMIN_TOKEN) (World s1 t)
             = (Return out, World s1 t)).
Proof.
  split.
  - intros Hrow. destruct (decide (int64 pid)) as [Hid|Hid].
    + by apply close_proposal_missing.
    + by apply close_proposal_unbound.
  - intros row Hrow.
    destruct (close_proposal_closes clock pid row w Hrow) as [Hres Hrow1].
    eexists _, _. split; [exact Hres|]. intros t.
    destruct (close_proposal_closes clock pid (set_status closed row)
                (World (update_status closed pid (db w)) t) Hrow1)
      as [Hres2 _].
    rewrite Hres2. cbn [db ticks].
    by rewrite update_status_twice, tally_votes_update.
Qed.

End Failures_and_reads.

Lemma cast_failure_stores_nothing_witness :
  votes (db (submit_vote sample_clock 1
               {| voter_name := "Alice"; vote := "no" |}
               (World sample_ballots 0)).2)
  = votes sample_ballots.
Proof.
  destruct (cast_failure_stores_nothing sample_clock 1
              {| voter_name := "Alice"; vote := "no" |}
              (World sample_ballots 0) Conflict (World sample_ballots 1))
    as (Hvotes & _); [reflexivity|exact Hvotes].
Defined.

Lemma get_proposal_reads_witness :
  get_proposal sample_clock 7 (World sample_ballots 0)
  = (Raise NotFound_proposal, World sample_ballots 0)
  ∧ get_proposal sample_clock (2 ^ 63) (World sample_ballots 0)
    = (Raise OverflowError, World sample_ballots 0)
  ∧ ∃ st w1,
      get_proposal sample_clock 1 (World sample_ballots 3)
      = (Return (proposal_out (set_status st (sample_proposal active))
                              (1, 0, 0)), w1)
      ∧ votes (db w1) = votes sample_ballots.
Proof.
  destruct (get_proposal_reads sample_clock 7 (World sample_ballots 0))
    as [Hmissing _].
  destruct (get_proposal_reads sample_clock (2 ^ 63) (World sample_ballots 0))
    as [Hunbound _].
  destruct (get_proposal_reads sample_clock 1 (World sample_ballots 3))
    as [_ Hstored].
  destruct (Hstored (sample_proposal active))
    as (st & w1 & Hget & _ & _ & Hvotes & _); [reflexivity|].
  split_and!.
  - apply Hmissing. reflexivity.
  - apply Hunbound. reflexivity.
  - exists st, w1. split; [exact Hget|exact Hvotes].
Defined.

Lemma close_twice_witness :
  close_proposal sample_clock 7 (Some ADMIN_TOKEN) (World sample_ballots 5)
  = (Raise NotFound_proposal, World sample_ballots 5)
  ∧ ∃ out s1,
      close_proposal sample_clock 1 (Some ADMIN_TOKEN) (World sample_ballots 5)
      = (Return out, World s1 5)
      ∧ close_proposal sample_clock 1 (Some ADMIN_TOKEN) (World s1 9)
        = (Return out, World s1 9).
Proof.
  destruct (close_twice sample_clock 7 (World sample_ballots 5))
    as [Hmissing _].
  destruct (close_twice sample_clock 1 (World sample_ballots 5)) as [_ Hrow].
  destruct (Hrow (sample_proposal active)) as (out & s1 & Hfirst & Hagain);
    [reflexivity|].
  split.
  - apply Hmissing. reflexivity.
  - exists out, s1. split; [exact Hfirst|exact (Hagain 9%nat)].
Defined.

(** ** What a create does to the store *)

Section Create_frame.

Variable clock : nat → Z.
Implicit Types (w : world) (s : store) (row : proposal_row).

Lemma create_proposal_overflow payload w d :
  days_open payload = Some d →
  ¬ representable (clock (ticks w)) d →
  create_proposal clock payload w
  = (Raise OverflowError, World (db w) (S (ticks w))).
Proof.
  intros Hd Hrep. unfold create_proposal, mbind, M_bind, utcnow, lift.
  rewrite Hd. cbn [timedelta ticks db].
  destruct (decide (- MAX_DELTA_DAYS ≤ d ≤ MAX_DELTA_DAYS)); [|done].
  unfold datetime_add. destruct (decide _) as [Hdate|]; [|done].
  by destruct Hrep.
Qed.

(** What a successful [create_proposal] has done. *)
Lemma create_proposal_success payload w out w1 :
  create_proposal clock payload w = (Return out, w1) →
  ∃ d,
    days_open payload = Some d
    ∧ representable (clock (ticks w)) d
    ∧ out = proposal_out
              (set_status (created_status clock d w)
                          (new_proposal clock payload d w))
              (tally_votes (p_id (new_proposal clock payload d w)) (db w))
    ∧ ticks w1 = S (S (ticks w))
    ∧ (created_status clock d w = active
       ∧ db w1 = add_proposal (new_proposal clock payload d w) (db w)
       ∨ created_status clock d w = expired
         ∧ db w1 = update_status expired
                     (p_id (new_proposal clock payload d w))
                     (add_proposal (new_proposal clock payload d w) (db w))).
Proof.
  intros Hcreate.
  destruct (days_open payload) as [d|] eqn:Hd;
    [|by rewrite create_proposal_null in Hcreate].
  destruct (decide (representable (clock (ticks w)) d)) as [Hrep|Hrep];
    [|by rewrite (create_proposal_overflow _ _ d) in Hcreate].
  exists d. unfold created_status.
  destruct (decide (clock (S (ticks w)) > clock (ticks w) + d * US_PER_DAY))
    as [Hnow|Hnow].
  - rewrite (create_proposal_expired _ _ _ d) in Hcreate by done.
    injection Hcreate as <- <-. split_and!; [done..|]. by right.
  - rewrite (create_proposal_active _ _ _ d) in Hcreate by (done || lia).
    injection Hcreate as <- <-. split_and!; try done. by left.
Qed.

Lemma select_proposal_add_other r pid s :
  pid ≠ p_id r →
  select_proposal pid (add_proposal r s) = select_proposal pid s.
Proof.
  intros Hne. unfold select_proposal, add_proposal; simpl.
  rewrite filter_app, filter_cons_False by congruence.
  by rewrite filter_nil, app_nil_r.
Qed.

(** X9. [create_proposal] raises no HTTP error. It fails only on the days:
    with a type error when the body gives [null], and with an overflow
    error when [timedelta] or the range of dates cannot represent them. A
    create that fails has read the clock once and stored nothing. *)
Theorem create_failure_stores_nothing payload w e w1 :
  create_proposal clock payload w = (Raise e, w1) →
  w1 = World (db w) (S (ticks w))
  ∧ (e = TypeError ∧ days_open payload = None
     ∨ e = OverflowError
       ∧ ∃ d, days_open payload = Some d
              ∧ ¬ representable (clock (ticks w)) d).
Proof.
  intros Hcreate. destruct (days_open payload) as [d|] eqn:Hd.
  - destruct (decide (representable (clock (ticks w)) d)) as [Hrep|Hrep].
    + destruct (create_proposal_created clock payload w d Hd Hrep)
        as (w' & Hres & _).
      by rewrite Hres in Hcreate.
    + rewrite (create_proposal_overflow _ _ d) in Hcreate by done.
      injection Hcreate as <- <-. split; [done|]. right. split; [done|].
      by exists d.
  - rewrite create_proposal_null in Hcreate by done.
    injection Hcreate as <- <-. split; [done|]. by left.
Qed.

(** X10. A create that succeeds appends one row to the table of proposals
    and touches nothing else: the id it returns is above the id of every
    proposal in the table and becomes the counter of the table, the ids of
    the table are the former ids followed by the new one, every other
    proposal reads as before, and the votes and their counter are
    unchanged. Two clock reads are made. *)
Theorem create_appends_proposal payload w out w1 :
  create_proposal clock payload w = (Return out, w1) →
  (∀ r, r ∈ proposals (db w) → p_id r < out_id out)
  ∧ proposals_seq (db w1) = out_id out
  ∧ p_id <$> proposals (db w1)
    = ((p_id <$> proposals (db w)) ++ [out_id out])%list
  ∧ (∀ pid, pid ≠ out_id out →
            select_proposal pid (db w1) = select_proposal pid (db w))
  ∧ votes (db w1) = votes (db w)
  ∧ votes_seq (db w1) = votes_seq (db w)
  ∧ ticks w1 = S (S (ticks w)).
Proof.
  intros Hcreate.
  destruct (create_proposal_success _ _ _ _ Hcreate)
    as (d & Hd & Hrep & -> & Hticks & Hdb).
  cbn [out_id proposal_out set_status p_id new_proposal].
  split_and!; [| | | | | |done].
  - intros r Hr. apply next_rowid_fresh. by apply list_elem_of_fmap_2.
  - by destruct Hdb as [[_ ->]|[_ ->]].
  - destruct Hdb as [[_ ->]|[_ ->]]; rewrite ?update_status_ids;
      unfold add_proposal; simpl; by rewrite fmap_app.
  - intros pid Hne. destruct Hdb as [[_ ->]|[_ ->]].
    + by apply select_proposal_add_other.
    + rewrite select_update_other by done.
      by apply select_proposal_add_other.
  - by destruct Hdb as [[_ ->]|[_ ->]].
  - by destruct Hdb as [[_ ->]|[_ ->]].
Qed.

End Create_frame.

Definition sample_payload : ProposalCreate :=
  {| title := "Pool"; description := "Build a pool"; days_open := Some 2 |}.

Definition sample_pool : proposal_row :=
  ProposalRow 2 "Pool" "Build a pool" (739251 * US_PER_DAY)
              (739253 * US_PER_DAY) active.

Lemma sample_create_succeeds :
  create_proposal sample_clock sample_payload (World sample_ballots 0)
  = (Return (proposal_out sample_pool (0, 0, 0)),
     World (add_proposal sample_pool sample_ballots) 2).
Proof. reflexivity. Qed.

Lemma create_failure_stores_nothing_witness :
  let payload := {| title := "Pool"; description := "Build a pool";
                    days_open := Some (- 800000) |} in
  World sample_ballots 1 = World sample_ballots 1
  ∧ (OverflowError = TypeError ∧ days_open payload = None
     ∨ OverflowError = OverflowError
       ∧ ∃ d, days_open payload = Some d
              ∧ ¬ representable (sample_clock 0) d).
Proof.
  intros payload.
  apply (create_failure_stores_nothing sample_clock payload
           (World sample_ballots 0) OverflowError (World sample_ballots 1)).
  reflexivity.
Defined.

Lemma create_appends_proposal_witness :
  (∀ r, r ∈ proposals sample_ballots → p_id r < 2)
  ∧ p_id <$> proposals (add_proposal sample_pool sample_ballots) = [1; 2].
Proof.
  destruct (create_appends_proposal sample_clock sample_payload
              (World sample_ballots 0) (proposal_out sample_pool (0, 0, 0))
              (World (add_proposal sample_pool sample_ballots) 2)
              sample_create_succeeds) as (Hfresh & _ & Hids & _).
  split; [exact Hfresh|exact Hids].
Defined.

(** ** Listing the proposals *)

Section Listing.

Variable clock : nat → Z.
Implicit Types (w : world) (s : store) (row : proposal_row).

Lemma select_proposal_stored pid s :
  pid ∈ p_id <$> proposals s →
  ∃ row, fetchone (select_proposal pid s) = Some row.
Proof.
  unfold fetchone, select_proposal.
  intros (r & -> & Hr)%list_elem_of_fmap.
  destruct (filter (λ r0, p_id r0 = p_id r) (proposals s)) as [|x l] eqn:Hf.
  - by destruct (filter_nil_not_elem_of _ _ r Hf).
  - by exists x.
Qed.

Lemma fetched_proposal_stored pid s row :
  fetchone (select_proposal pid s) = Some row → pid ∈ p_id <$> proposals s.
Proof.
  intros Hrow. pose proof (fetchone_Some_id _ _ _ Hrow) as <-.
  apply list_elem_of_fmap_2.
  unfold fetchone, select_proposal in Hrow.
  apply head_Some_elem_of, list_elem_of_filter in Hrow. tauto.
Qed.

(** One turn of the loop on a stored id. *)
Lemma get_proposals_item_stored pid w :
  pid ∈ p_id <$> proposals (db w) →
  ∃ row w1,
    get_proposal_or_404 clock pid w = (Return row, w1)
    ∧ get_proposals_item clock pid w
      = (Return (proposal_out row (tally_votes pid (db w))), w1)
    ∧ p_id row = pid.
Proof.
  intros [row0 Hrow0]%select_proposal_stored.
  destruct (get_proposal_or_404 clock pid w) as [[row|e] w1] eqn:Hget.
  - exists row, w1. destruct (resolution_frame _ _ _ _ _ Hget)
      as (Hrow & Hvotes & _).
    split_and!; [done| |by apply (fetchone_Some_id _ _ _ Hrow)].
    unfold get_proposals_item, mbind, M_bind, query, mret, M_ret.
    rewrite Hget. do 3 f_equal. apply tally_votes_of.
    unfold votes_of. by rewrite Hvotes.
  - destruct (resolution_failure _ _ _ _ _ Hget) as (_ & Hnone & _).
    congruence.
Qed.

Lemma get_proposals_loop_total ids w :
  (∀ id, id ∈ ids → id ∈ p_id <$> proposals (db w)) →
  ∃ outs w1,
    get_proposals_loop clock ids w = (Return outs, w1)
    ∧ out_id <$> outs = ids
    ∧ votes (db w1) = votes (db w)
    ∧ votes_seq (db w1) = votes_seq (db w)
    ∧ proposals_seq (db w1) = proposals_seq (db w)
    ∧ p_id <$> proposals (db w1) = p_id <$> proposals (db w).
Proof.
  revert w. induction ids as [|pid ids IH]; intros w Hids.
  - by exists [], w.
  - destruct (get_proposals_item_stored pid w) as (row & w' & Hget & Hitem & Hid);
      [apply Hids; left|].
    destruct (resolution_frame _ _ _ _ _ Hget)
      as (_ & Hvotes & Hvseq & Hpseq & Hpids & _).
    destruct (IH w') as (outs & w1 & Hloop & Houts & Hv & Hvs & Hps & Hp).
    { intros id Hid'. rewrite Hpids. apply Hids. by right. }
    eexists _, w1. simpl. unfold mbind, M_bind. rewrite Hitem, Hloop.
    split_and!; [reflexivity|..]; try congruence.
    rewrite fmap_cons, Houts. simpl. by rewrite Hid.
Qed.

(** X11. [GET /proposals/] never fails: it returns one entry for each row
    of the table of proposals, in the order of the table and under the id
    of the row. It deletes and inserts nothing: the ids of the proposals,
    the votes and both counters are as they were. *)
Theorem get_proposals_lists_all w :
  ∃ outs w1,
    get_proposals clock w = (Return outs, w1)
    ∧ out_id <$> outs = p_id <$> proposals (db w)
    ∧ votes (db w1) = votes (db w)
    ∧ votes_seq (db w1) = votes_seq (db w)
    ∧ proposals_seq (db w1) = proposals_seq (db w)
    ∧ p_id <$> proposals (db w1) = p_id <$> proposals (db w).
Proof.
  destruct (get_proposals_loop_total (p_id <$> proposals (db w)) w)
    as (outs & w1 & Hloop & Hrest); [done|].
  exists outs, w1. split; [|done].
  unfold get_proposals, mbind, M_bind, query, select_proposal_ids. done.
Qed.

Lemma get_proposals_loop_sweeps ids w outs w1 pid row :
  get_proposals_loop clock ids w = (Return outs, w1) →
  pid ∈ ids →
  fetchone (select_proposal pid (db w1)) = Some row →
  p_status row = active →
  ∃ k : nat, (ticks w ≤ k)%nat ∧ clock k ≤ p_deadline row.
Proof.
  revert w outs. induction ids as [|p ids IH]; intros w outs;
    [by intros _ ?%elem_of_nil|].
  simpl. unfold mbind, M_bind at 1.
  destruct (get_proposals_item clock p w) as [[o|e] w'] eqn:Hitem; [|done].
  unfold mbind, M_bind at 1.
  destruct (get_proposals_loop clock ids w') as [[os|e] w''] eqn:Hloop;
    [|done].
  unfold mret, M_ret. intros [= <- <-] Hin Hrow Hact.
  destruct (get_proposals_item_in_time _ _ _ _ _ Hitem) as [_ Hticks].
  destruct (decide (pid = p)) as [->|Hne].
  - unfold get_proposals_item, mbind, M_bind at 1 in Hitem.
    destruct (get_proposal_or_404 clock p w) as [[r|e] w2] eqn:Hget;
      [|done].
    unfold mbind, M_bind, query, mret, M_ret in Hitem.
    injection Hitem as _ <-.
    destruct (resolution_frame _ _ _ _ _ Hget) as (Hr & _).
    destruct (resolved_row_in_time _ _ _ _ _ Hget) as [Hin_time _].
    pose proof (effects_get_proposals_loop clock ids w2) as Hrtc.
    rewrite Hloop in Hrtc. cbn [snd] in Hrtc.
    destruct (effects_evolve _ _ _ Hrtc p r Hr) as (st' & Hrow' & Ht).
    rewrite Hrow in Hrow'. injection Hrow' as ->.
    cbn [p_status p_deadline set_status] in *. subst st'.
    exists (ticks w). split; [lia|]. apply Hin_time. by inversion Ht.
  - apply elem_of_cons in Hin as [?|Hin]; [done|].
    destruct (IH _ _ Hloop Hin Hrow Hact) as (k & Hk & Hdl).
    exists k. split; [lia|done].
Qed.

(** X12. With a clock that does not run backwards, [GET /proposals/]
    sweeps the table: once it has returned, no stored proposal is active
    with a deadline before the instant the request started at. *)
Theorem get_proposals_sweeps w outs w1 pid row :
  (∀ m n : nat, (m ≤ n)%nat → clock m ≤ clock n) →
  get_proposals clock w = (Return outs, w1) →
  fetchone (select_proposal pid (db w1)) = Some row →
  p_status row = active →
  clock (ticks w) ≤ p_deadline row.
Proof.
  intros Hmono Hget Hrow Hact.
  unfold get_proposals, mbind, M_bind, query, select_proposal_ids in Hget.
  destruct (get_proposals_loop_total (p_id <$> proposals (db w)) w)
    as (outs' & w1' & Hget' & _ & _ & _ & _ & Hids); [done|].
  rewrite Hget in Hget'. injection Hget' as <- <-.
  destruct (get_proposals_loop_sweeps _ _ _ _ pid row Hget) as (k & Hk & Hdl);
    [|done|done|].
  - rewrite <- Hids. by eapply fetched_proposal_stored.
  - pose proof (Hmono _ _ Hk). lia.
Qed.

End Listing.

Lemma get_proposals_sweeps_witness :
  sample_clock 0 ≤ p_deadline (sample_proposal active).
Proof.
  apply (get_proposals_sweeps sample_clock (World sample_ballots 0)
           [proposal_out (sample_proposal active) (1, 0, 0)]
           (World sample_ballots 1) 1 (sample_proposal active));
    [|reflexivity..].
  intros m n Hmn. unfold sample_clock, US_PER_DAY. lia.
Defined.

(** ** Invariants of the store *)

(** No id of a table is above the counter of the table. *)
Definition ids_bounded (s : store) : Prop :=
  (∀ r, r ∈ proposals s → p_id r ≤ proposals_seq s)
  ∧ (∀ v, v ∈ votes s → v_id v ≤ votes_seq s).

(** Every vote is a vote on a stored proposal: what the [FOREIGN KEY] of
    table [votes] declares. *)
Definition votes_refer (s : store) : Prop :=
  ∀ v, v ∈ votes s → v_proposal_id v ∈ p_id <$> proposals s.

(** Every stored choice is one of yes, no and abstain. *)
Definition choices_valid (s : store) : Prop :=
  ∀ v, v ∈ votes s → v_vote v ∈ choices.

Section Invariants.

Variable clock : nat → Z.
Implicit Types (w : world) (s : store) (v : vote_row) (row : proposal_row).

Lemma elem_of_updated st pid s r' :
  r' ∈ proposals (update_status st pid s) →
  ∃ r, r ∈ proposals s ∧ p_id r' = p_id r.
Proof.
  unfold update_status; simpl. intros (r & -> & Hr)%list_elem_of_fmap.
  exists r. split; [done|]. by destruct (decide _).
Qed.

Lemma effect_ids_bounded w w' :
  effect clock w w' →
  ids_bounded (db w) →
  ids_bounded (db w')
  ∧ proposals_seq (db w) ≤ proposals_seq (db w')
  ∧ votes_seq (db w) ≤ votes_seq (db w').
Proof.
  unfold ids_bounded.
  intros [s t|s t pid row _ _ _|s t pid row _|s t ttl descr cr dl
         |s t pid row name choice _ _ _ _ _|s t vid v row _ _ _ _];
    cbn [db]; intros [Hp Hv].
  - done.
  - split_and!; [|done|done|done].
    intros r' (r & Hr & ->)%elem_of_updated. by apply Hp.
  - split_and!; [|done|done|done].
    intros r' (r & Hr & ->)%elem_of_updated. by apply Hp.
  - pose proof (foldr_max_ge (proposals_seq s) (p_id <$> proposals s)).
    unfold add_proposal, next_rowid; simpl. split_and!; [|done|lia|done].
    intros r [Hr| ->%list_elem_of_singleton]%elem_of_app; simpl; [|lia].
    specialize (Hp r Hr). lia.
  - pose proof (foldr_max_ge (votes_seq s) (v_id <$> votes s)).
    unfold add_vote, next_rowid; simpl. split_and!; [done| |done|lia].
    intros v [Hin| ->%list_elem_of_singleton]%elem_of_app; simpl; [|lia].
    specialize (Hv v Hin). lia.
  - unfold delete_vote; simpl. split_and!; [done| |done|done].
    intros v' [_ Hin]%list_elem_of_filter. by apply Hv.
Qed.

Lemma foldr_max_bounded (a : Z) (l : list Z) :
  (∀ i, i ∈ l → i ≤ a) → foldr Z.max a l = a.
Proof.
  induction l as [|i l IH]; [done|]. intros Hall. simpl.
  rewrite IH by (intros j Hj; apply Hall; by right).
  specialize (Hall i (ltac:(left))). lia.
Qed.

(** X13. Primary keys. In a store whose ids are unique and not above the
    counters, as the empty store is, every sequence of requests keeps the
    ids unique and bounded, and no counter ever decreases; the next id of
    each table is then its counter plus one. Ids are given in increasing
    order and never again after a delete. *)
Theorem keys_and_counters rs w :
  ids_unique (db w) →
  ids_bounded (db w) →
  ids_unique (db (run clock rs w))
  ∧ ids_bounded (db (run clock rs w))
  ∧ proposals_seq (db w) ≤ proposals_seq (db (run clock rs w))
  ∧ votes_seq (db w) ≤ votes_seq (db (run clock rs w))
  ∧ next_rowid (proposals_seq (db (run clock rs w)))
               (p_id <$> proposals (db (run clock rs w)))
    = proposals_seq (db (run clock rs w)) + 1
  ∧ next_rowid (votes_seq (db (run clock rs w)))
               (v_id <$> votes (db (run clock rs w)))
    = votes_seq (db (run clock rs w)) + 1.
Proof.
  intros Hu Hb.
  assert (ids_unique (db (run clock rs w))
          ∧ ids_bounded (db (run clock rs w))
          ∧ proposals_seq (db w) ≤ proposals_seq (db (run clock rs w))
          ∧ votes_seq (db w) ≤ votes_seq (db (run clock rs w)))
    as (Hu' & Hb' & Hp & Hv).
  { induction (effects_run clock rs w) as [|w1 w2 w3 Hstep _ IH];
      [split_and!; (done || lia)|].
    destruct (effect_ids_bounded _ _ Hstep Hb) as (Hb2 & Hp2 & Hv2).
    destruct IH as (? & ? & ? & ?); [by eapply effect_ids_unique|done|].
    split_and!; (done || lia). }
  split_and!; try done; unfold next_rowid.
  - rewrite foldr_max_bounded; [lia|].
    intros i (r & -> & Hr)%list_elem_of_fmap. by apply Hb'.
  - rewrite foldr_max_bounded; [lia|].
    intros i (v & -> & Hin)%list_elem_of_fmap. by apply Hb'.
Qed.

Lemma effect_votes_refer w w' :
  effect clock w w' → votes_refer (db w) → votes_refer (db w').
Proof.
  unfold votes_refer.
  intros [s t|s t pid row _ _ _|s t pid row _|s t ttl descr cr dl
         |s t pid row name choice Hrow _ _ _ _|s t vid v row _ _ _ _];
    cbn [db]; intros Href.
  - done.
  - intros v Hv. rewrite update_status_ids. by apply Href.
  - intros v Hv. rewrite update_status_ids. by apply Href.
  - intros v Hv. unfold add_proposal; simpl. rewrite fmap_app.
    apply elem_of_app. left. by apply Href.
  - unfold add_vote; simpl.
    intros v [Hv| ->%list_elem_of_singleton]%elem_of_app;
      [by apply Href|].
    simpl. by eapply fetched_proposal_stored.
  - unfold delete_vote; simpl.
    intros v' [_ Hin]%list_elem_of_filter. by apply Href.
Qed.

(** X14. Referential integrity. The handlers keep every vote on a stored
    proposal along every sequence of requests, although nothing in the
    store enforces it; in such a store a revoke never answers that the
    proposal is not found. *)
Theorem votes_refer_to_proposals rs w :
  votes_refer (db w) →
  votes_refer (db (run clock rs w))
  ∧ ∀ vid (t : nat),
      (revoke_vote clock vid (World (db (run clock rs w)) t)).1
      ≠ Raise NotFound_proposal.
Proof.
  intros Href.
  assert (votes_refer (db (run clock rs w))) as Href'.
  { induction (effects_run clock rs w) as [|w1 w2 w3 Hstep _ IH]; [done|].
    apply IH. by eapply effect_votes_refer. }
  split; [done|]. intros vid t.
  set (w' := World (db (run clock rs w)) t).
  destruct (fetchone (select_vote vid (db w'))) as [v|] eqn:Hv;
    [|by destruct (revoke_vote_absent clock _ _ Hv) as (e & -> & [->| ->])].
  destruct (get_proposal_or_404 clock (v_proposal_id v) w')
    as [[row|e] w1] eqn:Hget.
  - destruct (decide (p_status row = active)) as [Hst|Hst].
    + by rewrite (revoke_vote_delete _ _ _ _ _ _ Hv Hget Hst).
    + by rewrite (revoke_vote_not_active _ _ _ _ _ _ Hv Hget Hst).
  - destruct (resolution_failure _ _ _ _ _ Hget) as (_ & Hnone & _).
    destruct (fetched_vote _ _ _ Hv) as [Hin _].
    destruct (select_proposal_stored (v_proposal_id v) (db w')) as [r Hr];
      [by apply Href'|congruence].
Qed.

Lemma effect_choices_valid w w' :
  effect clock w w' → choices_valid (db w) → choices_valid (db w').
Proof.
  unfold choices_valid.
  intros [s t|s t pid row _ _ _|s t pid row _|s t ttl descr cr dl
         |s t pid row name choice _ _ _ _ Hc|s t vid v row _ _ _ _];
    cbn [db]; intros Hval; try done.
  - unfold add_vote; simpl.
    intros v [Hv| ->%list_elem_of_singleton]%elem_of_app;
      [by apply Hval|done].
  - unfold delete_vote; simpl.
    intros v' [_ Hin]%list_elem_of_filter. by apply Hval.
Qed.

Lemma count_total pid (l : list vote_row) :
  (∀ v, v ∈ l → v_vote v ∈ choices) →
  Z.of_nat (length (filter (λ v, v_proposal_id v = pid ∧ v_vote v = "yes") l))
  + Z.of_nat (length (filter (λ v, v_proposal_id v = pid ∧ v_vote v = "no") l))
  + Z.of_nat (length
      (filter (λ v, v_proposal_id v = pid ∧ v_vote v = "abstain") l))
  = Z.of_nat (length (filter (λ v, v_proposal_id v = pid) l)).
Proof.
  induction l as [|x l IH]; [done|]. intros Hall.
  assert (v_vote x ∈ choices) as Hx by (apply Hall; left).
  assert (∀ v, v ∈ l → v_vote v ∈ choices) as Hl
    by (intros v Hv; apply Hall; by right).
  specialize (IH Hl).
  rewrite !filter_cons.
  unfold choices in Hx. rewrite !elem_of_cons in Hx.
  destruct (decide (v_proposal_id x = pid)) as [Hp|Hp].
  - destruct Hx as [Hc|[Hc|[Hc|Hc%elem_of_nil]]]; [| | |done];
      repeat (destruct (decide (_ ∧ _)) as [[? ?]|?]);
      try (exfalso; intuition congruence);
      simpl length; rewrite ?Nat2Z.inj_succ; lia.
  - repeat (destruct (decide (_ ∧ _)) as [[? ?]|?]; [done|]). exact IH.
Qed.

(** X15. The handlers only ever store the choices yes, no and abstain,
    along every sequence of requests; the three counts of a tally then add
    up to the number of votes stored for the proposal. *)
Theorem tally_counts_every_vote rs w pid :
  choices_valid (db w) →
  choices_valid (db (run clock rs w))
  ∧ (tally_votes pid (db (run clock rs w))).1.1
    + (tally_votes pid (db (run clock rs w))).1.2
    + (tally_votes pid (db (run clock rs w))).2
    = Z.of_nat (length (votes_of pid (db (run clock rs w)))).
Proof.
  intros Hval.
  assert (choices_valid (db (run clock rs w))) as Hval'.
  { induction (effects_run clock rs w) as [|w1 w2 w3 Hstep _ IH]; [done|].
    apply IH. by eapply effect_choices_valid. }
  split; [done|]. rewrite tally_votes_counts. cbn [fst snd].
  unfold count_votes, votes_of. by apply count_total.
Qed.

End Invariants.

(** A short session on the empty store: a proposal, two votes, a revoke. *)
Definition sample_session : list request :=
  [ POST_proposals {| body_title := "Park"; body_description := "Build a park";
                      body_days_open := Absent |};
    POST_vote 1 {| voter_name := "Alice"; vote := "yes" |};
    POST_vote 1 sample_cast;
    DELETE_vote 1 ].

Lemma keys_and_counters_witness :
  ids_unique (db (run sample_clock sample_session (World empty_store 0)))
  ∧ 0 ≤ votes_seq (db (run sample_clock sample_session (World empty_store 0))).
Proof.
  destruct (keys_and_counters sample_clock sample_session
              (World empty_store 0)) as (Hu & _ & _ & Hv & _).
  - split; apply NoDup_nil_2.
  - split; intros x Hx; by apply elem_of_nil in Hx.
  - split; [exact Hu|exact Hv].
Defined.

Lemma votes_refer_to_proposals_witness :
  votes_refer (db (run sample_clock sample_session (World empty_store 0))).
Proof.
  destruct (votes_refer_to_proposals sample_clock sample_session
              (World empty_store 0)) as [Href _].
  - intros v Hv. by apply elem_of_nil in Hv.
  - exact Href.
Defined.

Lemma tally_counts_every_vote_witness :
  choices_valid (db (run sample_clock sample_session (World empty_store 0))).
Proof.
  destruct (tally_counts_every_vote sample_clock sample_session
              (World empty_store 0) 1) as [Hval _].
  - intros v Hv. by apply elem_of_nil in Hv.
  - exact Hval.
Defined.

(** ** A new proposal takes votes; rejected bodies *)

Section Composition.

Variable clock : nat → Z.
Implicit Types (w : world) (s : store) (v : vote_row) (row : proposal_row).

Lemma tally_votes_none pid s :
  (∀ v, v ∈ votes s → v_proposal_id v ≠ pid) →
  tally_votes pid s = (0, 0, 0).
Proof.
  intros Hnone. rewrite tally_votes_counts. unfold count_votes.
  assert (∀ c, filter (λ v, v_proposal_id v = pid ∧ v_vote v = c) (votes s)
               = []) as Hc.
  { intros c. apply elem_of_nil_inv.
    intros v [[Hpid _] Hin]%list_elem_of_filter. by apply (Hnone v). }
  by rewrite !Hc.
Qed.

(** X16. In a store whose votes are on stored proposals, a proposal that
    has just been created as active has the tally (0, 0, 0), and a cast of
    one of the three choices on it, made while its deadline has not
    passed, succeeds whoever the voter is: the tally of the proposal is
    then one vote for that choice. *)
Theorem new_proposal_takes_votes payload w out w1 ballot (t : nat) :
  votes_refer (db w) →
  create_proposal clock payload w = (Return out, w1) →
  out_status out = active →
  clock t ≤ out_deadline out →
  vote ballot ∈ choices →
  (yes_count out, no_count out, abstain_count out) = (0, 0, 0)
  ∧ ∃ vout w2,
      submit_vote clock (out_id out) ballot (World (db w1) t)
      = (Return vout, w2)
      ∧ tally_votes (out_id out) (db w2)
        = tally_add (vote ballot) 1 (0, 0, 0).
Proof.
  intros Href Hcreate Hact Hnow Hchoice.
  destruct (create_proposal_success _ _ _ _ _ Hcreate)
    as (d & Hd & Hrep & -> & _ & Hdb).
  cbn [out_status out_deadline out_id proposal_out set_status p_status
       p_deadline p_id yes_count no_count abstain_count] in *.
  destruct Hdb as [[_ Hdb]|[Hst _]]; [|congruence].
  set (row := new_proposal clock payload d w) in *.
  assert (∀ v, v ∈ votes (db w) → v_proposal_id v ≠ p_id row) as Hnone.
  { intros v Hv Heq. specialize (Href v Hv). rewrite Heq in Href.
    by apply next_rowid_not_elem in Href. }
  assert (tally_votes (p_id row) (db w) = (0, 0, 0)) as Hzero
    by (by apply tally_votes_none).
  split; [by rewrite Hzero|].
  assert (fetchone (select_proposal (p_id row) (db w1)) = Some row) as Hrow
    by (rewrite Hdb; by apply select_proposal_added).
  pose proof (resolve_in_time clock (p_id row) row (World (db w1) t)
                Hrow eq_refl Hnow) as Hget.
  assert (select_vote_of (p_id row) (voter_name ballot) (db w1) = []) as Hfree.
  { apply select_vote_of_nil. rewrite Hdb.
    intros (v & Hkey & Hv)%list_elem_of_fmap.
    apply (Hnone v Hv). unfold vote_key in Hkey. by inversion Hkey. }
  eexists _, _. split.
  - by apply (submit_vote_insert _ _ _ _ _ _ Hget).
  - cbn [db ticks]. rewrite tally_votes_add_vote.
    rewrite decide_True by done. cbn [v_vote new_vote].
    assert (tally_votes (p_id row) (db w1) = (0, 0, 0)) as ->; [|done].
    rewrite <- Hzero. apply tally_votes_of. unfold votes_of. by rewrite Hdb.
Qed.

(** X17. A body that validation rejects changes nothing: a create with an
    empty title or description, and a cast with an empty voter name or
    with a vote that is none of the three choices (nor one of them
    followed by a line feed), answer with a validation error before the
    handler runs; no clock is read and nothing is stored. *)
Theorem rejected_bodies_change_nothing w :
  (∀ body,
     body_title body = "" ∨ body_description body = "" →
     handle clock (POST_proposals body) w = (Raise RequestValidationError, w))
  ∧ (∀ pid ballot,
       voter_name ballot = ""
       ∨ vote ballot ∉ (choices ++ ((λ c, c +:+ newline) <$> choices))%list →
       handle clock (POST_vote pid ballot) w
       = (Raise RequestValidationError, w)).
Proof.
  split.
  - intros body Hempty%validate_ProposalCreate_fails.
    unfold handle, mbind, M_bind, lift. by rewrite Hempty.
  - intros pid ballot Hbad.
    assert (validate_VoteCreate ballot = Raise RequestValidationError) as Hval.
    { unfold validate_VoteCreate.
      destruct (decide (1 ≤ String.length (voter_name ballot))%nat)
        as [Hlen|Hlen]; [|done].
      destruct (decide _) as [Hin|Hni]; [|done].
      destruct Hbad as [Hname|Hvote]; [|done].
      rewrite Hname in Hlen. simpl in Hlen. lia. }
    unfold handle, mbind, M_bind, lift. by rewrite Hval.
Qed.

End Composition.

Lemma new_proposal_takes_votes_witness :
  ∃ vout w2,
    submit_vote sample_clock 2 sample_cast
      (World (add_proposal sample_pool sample_ballots) 2)
    = (Return vout, w2)
    ∧ tally_votes 2 (db w2) = (0, 1, 0).
Proof.
  destruct (new_proposal_takes_votes sample_clock sample_payload
              (World sample_ballots 0) (proposal_out sample_pool (0, 0, 0))
              (World (add_proposal sample_pool sample_ballots) 2)
              sample_cast 2)
    as (_ & vout & w2 & Hcast & Htally).
  - intros v ->%list_elem_of_singleton. by left.
  - exact sample_create_succeeds.
  - reflexivity.
  - vm_compute. discriminate.
  - right. left.
  - exists vout, w2. split; [exact Hcast|exact Htally].
Defined.

Lemma rejected_bodies_change_nothing_witness :
  handle sample_clock
    (POST_proposals {| body_title := ""; body_description := "Build a park";
                       body_days_open := Absent |})
    (World sample_ballots 0)
  = (Raise RequestValidationError, World sample_ballots 0)
  ∧ handle sample_clock
      (POST_vote 1 {| voter_name := "Bob"; vote := "maybe" |})
      (World sample_ballots 0)
    = (Raise RequestValidationError, World sample_ballots 0).
Proof.
  destruct (rejected_bodies_change_nothing sample_clock
              (World sample_ballots 0)) as [Hcreate Hcast].
  split.
  - apply Hcreate. by left.
  - apply Hcast. right. vm_compute.
    intros Hin. repeat (apply elem_of_cons in Hin as [Hin|Hin];
                        [discriminate Hin|]).
    by apply elem_of_nil in Hin.
Defined.

Section Revoke_failure.

Variable clock : nat → Z.
Implicit Types (w : world) (v : vote_row).

(** X18. A revoke that fails has deleted nothing: the table of votes is as
    it was. When the id is not stored the world is untouched, and the
    revoke fails with the vote-not-found 404 for an id that fits in 64 bits
    and with an overflow error for an id that does not. When the vote is
    stored, it fails with the proposal-not-found 404 (or an overflow error)
    when the vote's proposal is not stored, and otherwise with the
    not-active error, the proposal of the vote being then stored as closed
    or expired. *)
Theorem revoke_failure_deletes_nothing vid w e w1 :
  revoke_vote clock vid w = (Raise e, w1) →
  votes (db w1) = votes (db w)
  ∧ (fetchone (select_vote vid (db w)) = None ∧ w1 = w
       ∧ (e = NotFound_vote ∧ int64 vid ∨ e = OverflowError ∧ ¬ int64 vid)
     ∨ ∃ v, fetchone (select_vote vid (db w)) = Some v
            ∧ (fetchone (select_proposal (v_proposal_id v) (db w)) = None
                 ∧ w1 = w
                 ∧ (e = NotFound_proposal ∧ int64 (v_proposal_id v)
                    ∨ e = OverflowError ∧ ¬ int64 (v_proposal_id v))
               ∨ e = InvalidState_revoke
                 ∧ ∃ row, fetchone (select_proposal (v_proposal_id v) (db w1))
                          = Some row
                          ∧ p_status row ≠ active)).
Proof.
  intros Hrev.
  destruct (fetchone (select_vote vid (db w))) as [v|] eqn:Hv.
  - destruct (get_proposal_or_404 clock (v_proposal_id v) w)
      as [[row|e'] w'] eqn:Hget.
    + destruct (resolution_frame _ _ _ _ _ Hget) as (Hrow & Hvotes & _).
      destruct (decide (p_status row = active)) as [Hst|Hst];
        [by rewrite (revoke_vote_delete _ _ _ _ _ _ Hv Hget Hst) in Hrev|].
      rewrite (revoke_vote_not_active _ _ _ _ _ _ Hv Hget Hst) in Hrev.
      injection Hrev as <- <-. split; [done|]. right. exists v.
      split; [done|]. right. split; [done|]. by exists row.
    + rewrite (revoke_vote_unresolved _ _ _ _ _ _ Hv Hget) in Hrev.
      injection Hrev as <- <-.
      destruct (resolution_failure _ _ _ _ _ Hget) as (-> & Hnone & He).
      split; [done|]. right. exists v. split; [done|]. by left.
  - destruct (decide (int64 vid)) as [Hid|Hid].
    + rewrite (revoke_vote_missing _ _ _ Hv Hid) in Hrev.
      injection Hrev as <- <-. split; [done|]. left. split_and!; auto.
    + rewrite (revoke_vote_unbound _ _ _ Hv Hid) in Hrev.
      injection Hrev as <- <-. split; [done|]. left. split_and!; auto.
Qed.

End Revoke_failure.

(** Proposal 1 is closed and holds the vote of Alice. *)
Definition sample_closed_ballots : store :=
  Store [sample_proposal closed] 1
        [VoteRow 1 1 "Alice" "yes" (739251 * US_PER_DAY)] 1.

Lemma revoke_failure_deletes_nothing_witness :
  votes (db (World sample_closed_ballots 0)) = votes sample_closed_ballots
  ∧ fetchone (select_vote 1 sample_closed_ballots)
    = Some (VoteRow 1 1 "Alice" "yes" (739251 * US_PER_DAY)).
Proof.
  destruct (revoke_failure_deletes_nothing sample_clock 1
              (World sample_closed_ballots 0) InvalidState_revoke
              (World sample_closed_ballots 0)) as [Hvotes _];
    [reflexivity|].
  split; [exact Hvotes|reflexivity].
Defined.
